(** * Sales dashboard: the filtering, conversion and aggregation pipeline

  A shallow embedding of the pure data pipeline of the dashboard
  (services/dataService.ts, App.tsx, components/ChartsSection.tsx and
  components/DataGrid.tsx) and the properties its specification states.

  JavaScript numbers are modelled as exact rationals extended with the
  three special values NaN, +Infinity and -Infinity.  Every special-value
  rule of ECMAScript arithmetic that the program can reach is written out;
  what the model abstracts is binary rounding and the sign of zero (there
  is one zero, and it behaves like +0).  Sums and products are therefore
  exact and never overflow; a statement that equates sums computed along
  different paths holds of the program up to rounding, and carries a
  hypothesis that keeps the totals within the range of the numbers. *)

From Stdlib Require Import List String Ascii Bool ZArith QArith Qcanon.
From Stdlib Require Import Lia Permutation Sorted Qround OrderedTypeEx.
Import ListNotations.

(* ===================================================================== *)
(** ** ECMAScript numbers and the built-ins the program calls            *)
(* ===================================================================== *)

Module JS.

Inductive number : Type :=
| NaN
| NegInf
| Fin (q : Qc)
| PosInf.

Definition num (q : Q) : number := Fin (Q2Qc q).
Definition of_Z (z : Z) : number := num (inject_Z z).
Definition of_nat (n : nat) : number := of_Z (Z.of_nat n).

Definition zero : number := of_Z 0.
Definition one : number := of_Z 1.

Definition is_nan (n : number) : bool :=
  match n with NaN => true | _ => false end.

Definition is_finite (n : number) : bool :=
  match n with Fin _ => true | _ => false end.

(** Sign of a rational, as a comparison with zero. *)
Definition sgn (q : Qc) : comparison := (q ?= Q2Qc 0)%Qc.

Definition Qc_ltb (a b : Qc) : bool :=
  match (a ?= b)%Qc with Lt => true | _ => false end.

Definition Qc_leb (a b : Qc) : bool :=
  match (a ?= b)%Qc with Gt => false | _ => true end.

Definition neg (a : number) : number :=
  match a with
  | NaN => NaN
  | NegInf => PosInf
  | PosInf => NegInf
  | Fin q => Fin (- q)%Qc
  end.

(** [a + b]. *)
Definition add (a b : number) : number :=
  match a, b with
  | NaN, _ | _, NaN => NaN
  | PosInf, NegInf | NegInf, PosInf => NaN
  | PosInf, _ | _, PosInf => PosInf
  | NegInf, _ | _, NegInf => NegInf
  | Fin x, Fin y => Fin (x + y)%Qc
  end.

(** [a - b]. *)
Definition sub (a b : number) : number := add a (neg b).

Definition inf_of (c : comparison) : number :=
  match c with Lt => NegInf | Eq => NaN | Gt => PosInf end.

Definition sign_of (a : number) : comparison :=
  match a with
  | NaN => Eq
  | NegInf => Lt
  | PosInf => Gt
  | Fin q => sgn q
  end.

Definition sign_mul (c d : comparison) : comparison :=
  match c, d with
  | Eq, _ | _, Eq => Eq
  | Lt, Lt | Gt, Gt => Gt
  | Lt, Gt | Gt, Lt => Lt
  end.

(** [a * b]: an infinity times zero is NaN. *)
Definition mul (a b : number) : number :=
  match a, b with
  | NaN, _ | _, NaN => NaN
  | Fin x, Fin y => Fin (x * y)%Qc
  | _, _ => inf_of (sign_mul (sign_of a) (sign_of b))
  end.

(** [a / b]: a non-zero number over zero is an infinity, zero over zero
    and infinity over infinity are NaN, a finite number over an infinity
    is zero. *)
Definition div (a b : number) : number :=
  match a, b with
  | NaN, _ | _, NaN => NaN
  | Fin x, Fin y =>
      match sgn y with
      | Eq => inf_of (sgn x)
      | _ => Fin (x / y)%Qc
      end
  | Fin _, _ => zero
  | _, Fin y =>
      match sgn y with
      | Lt => neg a
      | _ => a
      end
  | _, _ => NaN
  end.

(** [a < b]: false as soon as one side is NaN. *)
Definition ltb (a b : number) : bool :=
  match a, b with
  | NaN, _ | _, NaN => false
  | NegInf, NegInf => false
  | NegInf, _ => true
  | _, NegInf => false
  | PosInf, _ => false
  | _, PosInf => true
  | Fin x, Fin y => Qc_ltb x y
  end.

(** [a <= b]. *)
Definition leb (a b : number) : bool :=
  match a, b with
  | NaN, _ | _, NaN => false
  | NegInf, _ => true
  | _, PosInf => true
  | _, NegInf => false
  | PosInf, _ => false
  | Fin x, Fin y => Qc_leb x y
  end.

(** [a >= b]. *)
Definition geb (a b : number) : bool := leb b a.

Definition eqb (a b : number) : bool :=
  match a, b with
  | NaN, NaN | NegInf, NegInf | PosInf, PosInf => true
  | Fin x, Fin y => Qc_eq_bool x y
  | _, _ => false
  end.

(** ToBoolean on a number: zero and NaN are falsy. *)
Definition truthy (a : number) : bool :=
  match a with
  | NaN => false
  | Fin q => negb (Qc_eq_bool q (Q2Qc 0))
  | _ => true
  end.

(** [a || b] on numbers. *)
Definition or_else (a b : number) : number :=
  if truthy a then a else b.

(** [Math.max(...args)]: NaN as soon as one argument is NaN, otherwise
    the greatest argument, starting from -Infinity. *)
Definition Math_max (args : list number) : number :=
  if existsb is_nan args then NaN
  else fold_left (fun highest n => if ltb highest n then n else highest)
                 args NegInf.

(** [Math.min(...args)]: symmetric, starting from +Infinity. *)
Definition Math_min (args : list number) : number :=
  if existsb is_nan args then NaN
  else fold_left (fun lowest n => if ltb n lowest then n else lowest)
                 args PosInf.

(** [arr.includes(x)] on an array of strings. *)
Definition includes (arr : list string) (x : string) : bool :=
  existsb (String.eqb x) arr.

(** [arr.reduce((acc, item) => f(acc, item), init)]. *)
Definition reduce {A B : Type} (f : B -> A -> B) (init : B) (arr : list A) : B :=
  fold_left f arr init.

(** [arr.slice(0, n)]. *)
Definition slice0 {A : Type} (n : nat) (arr : list A) : list A := firstn n arr.

(** [arr.join(sep)] on an array of strings. *)
Fixpoint join (sep : string) (arr : list string) : string :=
  match arr with
  | [] => EmptyString
  | [x] => x
  | x :: rest => (x ++ sep ++ join sep rest)%string
  end.

(** *** Array.prototype.sort

    ECMAScript requires the sort to be stable, and with a consistent
    comparator its result is the one stable sorted arrangement; a stable
    insertion sort computes it.  The comparator's result is read as
    SortCompare reads it: [x] goes after [y] when [cmp x y > 0], and a NaN
    result counts as zero. *)
Fixpoint sort_insert {A : Type} (cmp : A -> A -> number) (x : A) (l : list A) : list A :=
  match l with
  | [] => [x]
  | y :: rest => if ltb zero (cmp x y) then y :: sort_insert cmp x rest else x :: l
  end.

Definition sort {A : Type} (cmp : A -> A -> number) (arr : list A) : list A :=
  fold_right (sort_insert cmp) [] arr.

(** *** Plain objects used as string-keyed tables

    What [acc[k]] reads and writes on an object created by [{}]: its own
    properties, in creation order, and behind them the members every object
    inherits from [Object.prototype]. *)
Inductive value : Type :=
| VUndefined
| VNum (n : number)
| VText      (** a string that starts with the text of an inherited member *)
| VInherited (** a function or object found on the prototype *).

Definition object : Type := list (string * value).

Definition proto_members : list string :=
  ["constructor"; "__proto__"; "hasOwnProperty"; "isPrototypeOf";
   "propertyIsEnumerable"; "toLocaleString"; "toString"; "valueOf";
   "__defineGetter__"; "__defineSetter__"; "__lookupGetter__";
   "__lookupSetter__"]%string.

Definition proto_member (k : string) : bool := includes proto_members k.

Fixpoint own (o : object) (k : string) : option value :=
  match o with
  | [] => None
  | (k', v) :: rest => if String.eqb k k' then Some v else own rest k
  end.

(** [o[k]]. *)
Definition get (o : object) (k : string) : value :=
  match own o k with
  | Some v => v
  | None => if proto_member k then VInherited else VUndefined
  end.

Fixpoint replace_own (o : object) (k : string) (v : value) : object :=
  match o with
  | [] => []
  | (k', v') :: rest =>
      if String.eqb k k' then (k', v) :: rest else (k', v') :: replace_own rest k v
  end.

(** [o[k] = v] for a number or a string [v]: the [__proto__] setter
    ignores such a value; any other key becomes, or stays, an own
    property. *)
Definition set (o : object) (k : string) (v : value) : object :=
  if String.eqb k "__proto__" then o
  else match own o k with
       | Some _ => replace_own o k v
       | None => o ++ [(k, v)]
       end.

(** [v || 0]. *)
Definition value_or_zero (v : value) : value :=
  match v with
  | VUndefined => VNum zero
  | VNum n => VNum (or_else n zero)
  | VText => VText
  | VInherited => VInherited
  end.

(** [v + n] for a number [n]: numeric addition, or string concatenation
    when [v] is not a number. *)
Definition value_plus (v : value) (n : number) : value :=
  match v with
  | VNum a => VNum (add a n)
  | VUndefined => VNum NaN
  | VText | VInherited => VText
  end.

(** ToNumber: the texts that arise here do not read as numbers. *)
Definition to_number (v : value) : number :=
  match v with
  | VNum a => a
  | _ => NaN
  end.

(** [v * n]. *)
Definition value_times (v : value) (n : number) : number :=
  mul (to_number v) n.

Definition digit_of (c : ascii) : option N :=
  let n := N_of_ascii c in
  if ((48 <=? n) && (n <=? 57))%N then Some (n - 48)%N else None.

Fixpoint digits_value (cs : list ascii) (acc : N) : option N :=
  match cs with
  | [] => Some acc
  | c :: rest =>
      match digit_of c with
      | Some d => digits_value rest (10 * acc + d)%N
      | None => None
      end
  end.

(** A key is an array index when it is the canonical decimal spelling of an
    integer below 2^32 - 1. *)
Definition array_index (k : string) : option N :=
  match list_ascii_of_string k with
  | [] => None
  | c :: rest =>
      if (N_of_ascii c =? 48)%N && negb (List.length rest =? 0)%nat then None
      else match digits_value (c :: rest) 0 with
           | Some n => if (n <? 4294967295)%N then Some n else None
           | None => None
           end
  end.

Fixpoint insert_index (e : N * (string * value)) (l : list (N * (string * value)))
  : list (N * (string * value)) :=
  match l with
  | [] => [e]
  | e' :: rest => if (fst e' <? fst e)%N then e' :: insert_index e rest else e :: l
  end.

Fixpoint index_entries (o : object) : list (N * (string * value)) :=
  match o with
  | [] => []
  | (k, v) :: rest =>
      match array_index k with
      | Some n => insert_index (n, (k, v)) (index_entries rest)
      | None => index_entries rest
      end
  end.

Definition is_index_key (e : string * value) : bool :=
  match array_index (fst e) with Some _ => true | None => false end.

(** [Object.entries(o)]: array-index keys first, in ascending numeric
    order, then the other keys in creation order. *)
Definition entries (o : object) : list (string * value) :=
  map snd (index_entries o) ++ filter (fun e => negb (is_index_key e)) o.

(** *** parseFloat

    Leading white space is skipped, then the longest prefix that reads as a
    decimal literal (sign, digits, fraction, exponent, or Infinity) gives
    the value; NaN when there is none. *)
Definition is_space (c : ascii) : bool :=
  let n := N_of_ascii c in
  ((n =? 32) || ((9 <=? n) && (n <=? 13)))%N.

Fixpoint skip_spaces (cs : list ascii) : list ascii :=
  match cs with
  | c :: rest => if is_space c then skip_spaces rest else cs
  | [] => []
  end.

(** The leading digits of [cs], as (how many, their value), and the rest. *)
Fixpoint take_digits (cs : list ascii) (count : nat) (acc : N) : nat * N * list ascii :=
  match cs with
  | c :: rest =>
      match digit_of c with
      | Some d => take_digits rest (S count) (10 * acc + d)%N
      | None => (count, acc, cs)
      end
  | [] => (count, acc, [])
  end.

Definition take_sign (cs : list ascii) : bool * list ascii :=
  match cs with
  | "-"%char :: rest => (true, rest)
  | "+"%char :: rest => (false, rest)
  | _ => (false, cs)
  end.

Fixpoint starts_with (p cs : list ascii) : bool :=
  match p, cs with
  | [], _ => true
  | a :: p', c :: cs' => Ascii.eqb a c && starts_with p' cs'
  | _ :: _, [] => false
  end.

(** The exponent part at the head of [cs], when there is a complete one. *)
Definition take_exponent (cs : list ascii) : Z :=
  match cs with
  | c :: rest =>
      if Ascii.eqb c "e" || Ascii.eqb c "E" then
        let '(negative, rest') := take_sign rest in
        let '(count, e, _) := take_digits rest' 0 0%N in
        if (count =? 0)%nat then 0%Z
        else if negative then (- Z.of_N e)%Z else Z.of_N e
      else 0%Z
  | [] => 0%Z
  end.

Definition parseFloat (s : string) : number :=
  let '(negative, body) := take_sign (skip_spaces (list_ascii_of_string s)) in
  if starts_with (list_ascii_of_string "Infinity") body then
    (if negative then NegInf else PosInf)
  else
    let '(icount, ipart, rest) := take_digits body 0 0%N in
    let '(fcount, mantissa, rest') :=
      match rest with
      | "."%char :: frac => take_digits frac 0 ipart
      | _ => (0%nat, ipart, rest)
      end in
    if ((icount + fcount)%nat =? 0)%nat then NaN
    else
      let e := (take_exponent rest' - Z.of_nat fcount)%Z in
      let magnitude := (inject_Z (Z.of_N mantissa) * Qpower (10 # 1) e)%Q in
      num (if negative then (- magnitude)%Q else magnitude).

(** ToBoolean on a string: only the empty string is falsy. *)
Definition string_truthy (s : string) : bool :=
  match s with EmptyString => false | _ => true end.

(** [Array.from(new Set(arr))]: the distinct elements, each at the place
    of its first occurrence. *)
Definition from_Set (arr : list string) : list string :=
  fold_left (fun seen x => if includes seen x then seen else seen ++ [x]) arr [].

(** The comparator [arr.sort()] uses when given none: strings compare by
    their code units. *)
Definition default_compare (x y : string) : number :=
  match String.compare x y with
  | Lt => of_Z (-1)
  | Eq => zero
  | Gt => one
  end.

(** [s.includes(sub)] on strings. *)
Fixpoint string_includes (s sub : string) : bool :=
  String.prefix sub s
  || match s with
     | EmptyString => false
     | String _ rest => string_includes rest sub
     end.

(** [s.split(sep)[0]] for a one-character separator: the text before its
    first occurrence, the whole string when there is none. *)
Fixpoint before_first (sep : ascii) (s : string) : string :=
  match s with
  | EmptyString => EmptyString
  | String c rest => if Ascii.eqb c sep then EmptyString else String c (before_first sep rest)
  end.

(** [Math.round(x)]: the nearest integer, halves going up. *)
Definition Math_round (x : number) : number :=
  match x with
  | Fin q => of_Z (Qfloor (this q + (1 # 2)))
  | other => other
  end.

End JS.

Import JS.

(* ===================================================================== *)
(** ** Date                                                              *)
(* ===================================================================== *)

(** A time value is a number of milliseconds since the epoch, or [None]
    for an invalid date (NaN).  The host's time zone is given in one of
    two ways: as a fixed offset [tz], in milliseconds, for a host whose
    clocks never change (local time is UTC plus [tz]); or as a [Zone],
    which gives the offset in force at each instant, for any host. *)
Module Date.

Definition msPerDay : Z := 86400000.

Definition is_leap (y : Z) : bool :=
  ((y mod 4 =? 0) && negb (y mod 100 =? 0) || (y mod 400 =? 0))%Z.

Definition days_in_month (y m : Z) : Z :=
  if (m =? 2)%Z then (if is_leap y then 29 else 28)
  else if ((m =? 4) || (m =? 6) || (m =? 9) || (m =? 11))%Z then 30
  else 31.

(** Day number of the civil date [y]-[m]-[d], counted from 1970-01-01. *)
Definition days_from_civil (y m d : Z) : Z :=
  let y' := if (m <=? 2)%Z then (y - 1)%Z else y in
  let era := (y' / 400)%Z in
  let yoe := (y' - era * 400)%Z in
  let mp := ((m + 9) mod 12)%Z in
  let doy := ((153 * mp + 2) / 5 + d - 1)%Z in
  let doe := (yoe * 365 + yoe / 4 - yoe / 100 + doy)%Z in
  (era * 146097 + doe - 719468)%Z.

Definition digits2 (a b : ascii) : option Z :=
  match digit_of a, digit_of b with
  | Some x, Some y => Some (Z.of_N (10 * x + y))
  | _, _ => None
  end.

(** The day a date-only string [YYYY-MM-DD] names, when it names one. *)
Definition civil_day (s : string) : option Z :=
  match list_ascii_of_string s with
  | [y1; y2; y3; y4; "-"%char; m1; m2; "-"%char; d1; d2] =>
      match digits2 y1 y2, digits2 y3 y4, digits2 m1 m2, digits2 d1 d2 with
      | Some yh, Some yl, Some m, Some d =>
          let y := (100 * yh + yl)%Z in
          if ((1 <=? m) && (m <=? 12) && (1 <=? d) && (d <=? days_in_month y m))%Z
          then Some (days_from_civil y m d)
          else None
      | _, _, _, _ => None
      end
  | _ => None
  end.

(** [new Date(s)] for the value of a date input: a date-only string is
    read as midnight UTC of its day. *)
Definition parse (s : string) : option Z :=
  match civil_day s with
  | Some day => Some (day * msPerDay)%Z
  | None => None
  end.

(** [date.setHours(h, m, s, ms)] on a host whose offset from UTC is always
    [tz]: the same local day, at the given local time of day; the new time
    value is returned. *)
Definition setHours (tz : Z) (t : option Z) (h m s ms : Z) : option Z :=
  match t with
  | None => None
  | Some utc =>
      let localDay := ((utc + tz) / msPerDay)%Z in
      Some (localDay * msPerDay + ((h * 60 + m) * 60 + s) * 1000 + ms - tz)%Z
  end.

(** A host's time zone, clock changes included: the offset from UTC
    (local minus UTC, in milliseconds) in force at a UTC instant, and the
    offset by which the host reads a local time value; where a clock
    change makes a local time occur twice or not at all, that is the
    offset in force before the change. *)
Record Zone : Type := mkZone {
  offsetAt : Z -> Z;
  offsetOfLocal : Z -> Z
}.

(** A host whose offset from UTC never changes. *)
Definition fixedZone (tz : Z) : Zone :=
  {| offsetAt := fun _ => tz; offsetOfLocal := fun _ => tz |}.

(** [date.setHours(h, m, s, ms)] on a host in [zone]: the time value is
    taken to local time, its time of day is replaced within the same local
    day, and the local time so made is read back as a UTC instant. *)
Definition setHoursIn (zone : Zone) (t : option Z) (h m s ms : Z) : option Z :=
  match t with
  | None => None
  | Some utc =>
      let local := (utc + offsetAt zone utc)%Z in
      let newLocal :=
        (local / msPerDay * msPerDay + ((h * 60 + m) * 60 + s) * 1000 + ms)%Z in
      Some (newLocal - offsetOfLocal zone newLocal)%Z
  end.

(** A time value as a number. *)
Definition time_number (t : option Z) : number :=
  match t with
  | Some z => of_Z z
  | None => NaN
  end.

(** [new Date(v)] for a number [v]: the time value is [v] without its
    fraction when [v] is finite and within 8.64 * 10^15 of zero, and the
    date is invalid otherwise. *)
Definition of_number (v : number) : option Z :=
  match v with
  | Fin q =>
      if leb (of_Z (-8640000000000000)) v && leb v (of_Z 8640000000000000)
      then Some (Z.quot (Qnum (this q)) (Zpos (Qden (this q))))
      else None
  | _ => None
  end.

(** The civil date (year, month, day) of a day number. *)
Definition civil_from_days (day : Z) : Z * Z * Z :=
  let z := (day + 719468)%Z in
  let era := (z / 146097)%Z in
  let doe := (z - era * 146097)%Z in
  let yoe := ((doe - doe / 1460 + doe / 36524 - doe / 146096) / 365)%Z in
  let y := (yoe + era * 400)%Z in
  let doy := (doe - (365 * yoe + yoe / 4 - yoe / 100))%Z in
  let mp := ((5 * doy + 2) / 153)%Z in
  let d := (doy - (153 * mp + 2) / 5 + 1)%Z in
  let m := if (mp <? 10)%Z then (mp + 3)%Z else (mp - 9)%Z in
  (if (m <=? 2)%Z then (y + 1)%Z else y, m, d).

Definition digit_char (d : Z) : ascii := ascii_of_N (48 + Z.to_N d).

Definition pad2 (n : Z) : string :=
  String (digit_char (n / 10)) (String (digit_char (n mod 10)) EmptyString).

Definition pad4 (n : Z) : string :=
  (pad2 (n / 100) ++ pad2 (n mod 100))%string.

Definition pad6 (n : Z) : string :=
  (pad2 (n / 10000) ++ pad4 (n mod 10000))%string.

(** The year as [toISOString] prints it: four digits from 0000 to 9999,
    otherwise a sign and six digits. *)
Definition year_text (y : Z) : string :=
  if ((0 <=? y) && (y <=? 9999))%Z then pad4 y
  else if (y <? 0)%Z then ("-" ++ pad6 (- y))%string
       else ("+" ++ pad6 y)%string.

(** [date.toISOString().split('T')[0]]: the UTC day of the time value,
    as [YYYY-MM-DD]. *)
Definition isoDate (t : Z) : string :=
  let '(y, m, d) := civil_from_days (t / msPerDay) in
  (year_text y ++ "-" ++ pad2 m ++ "-" ++ pad2 d)%string.

(** The day an ISO date names, in the four-digit form or in the expanded
    form with a sign and a six-digit year (minus zero is not a year). *)
Definition civil_day_any (s : string) : option Z :=
  match civil_day s with
  | Some day => Some day
  | None =>
      match list_ascii_of_string s with
      | [sg; y1; y2; y3; y4; y5; y6; "-"%char; m1; m2; "-"%char; d1; d2] =>
          match digits2 y1 y2, digits2 y3 y4, digits2 y5 y6,
                digits2 m1 m2, digits2 d1 d2 with
          | Some a, Some b, Some c, Some m, Some d =>
              let magnitude := (10000 * a + 100 * b + c)%Z in
              let signed :=
                if Ascii.eqb sg "+" then Some magnitude
                else if Ascii.eqb sg "-" && negb (magnitude =? 0)%Z then Some (- magnitude)%Z
                     else None in
              match signed with
              | Some y =>
                  if ((1 <=? m) && (m <=? 12) && (1 <=? d) && (d <=? days_in_month y m))%Z
                  then Some (days_from_civil y m d)
                  else None
              | None => None
              end
          | _, _, _, _, _ => None
          end
      | _ => None
      end
  end.

(** [new Date(s)] for an ISO date in either form. *)
Definition parse_any (s : string) : option Z :=
  match civil_day_any s with
  | Some day => Some (day * msPerDay)%Z
  | None => None
  end.

End Date.

(* ===================================================================== *)
(** ** types.ts                                                          *)
(* ===================================================================== *)

(** A [Date] is its time value, milliseconds since the epoch (the records
    the pipeline handles carry valid dates). *)
Record SaleRecord : Type := mkSale {
  id : string;
  date : Z;
  category : string;
  product : string;
  region : string;
  sales : number;
  quantity : number;
  profit : number
}.

Inductive Language : Type := en | pt | es.
Inductive Theme : Type := light | dark.
Inductive Currency : Type := BRL | USD | ARS | PYG | UYU.

(* ===================================================================== *)
(** ** services/dataService.ts                                           *)
(* ===================================================================== *)

Module DataService.

Definition filterData (data : list SaleRecord)
           (selectedRegions selectedCategories : list string) : list SaleRecord :=
  filter (fun item =>
            let regionMatch :=
              (List.length selectedRegions =? 0)%nat || includes selectedRegions (region item) in
            let categoryMatch :=
              (List.length selectedCategories =? 0)%nat || includes selectedCategories (category item) in
            regionMatch && categoryMatch)
         data.

(** The comparator that ends [generateMockData] and [parseUploadedFile]:
    [a.date.getTime() - b.date.getTime()]. *)
Definition byDate (a b : SaleRecord) : number :=
  sub (of_Z (date a)) (of_Z (date b)).

(** Sort by date ascending: the last step of both producers of records. *)
Definition sortByDate (data : list SaleRecord) : list SaleRecord :=
  sort byDate data.

(** The time value read off an Excel serial date in [parseUploadedFile]:
    [Math.round((rawDate - 25569) * 86400 * 1000)].  This is the
    arithmetic alone; the guards around it are in [rowDate]. *)
Definition excelSerialTime (rawDate : number) : number :=
  Math_round (mul (mul (sub rawDate (of_Z 25569)) (of_Z 86400)) (of_Z 1000)).

(** What a cell of the uploaded sheet holds under the date column: nothing
    (the column is missing or the cell is empty), a number, a text or a
    boolean. *)
Inductive Cell : Type :=
| CellEmpty
| CellNumber (n : number)
| CellText (s : string)
| CellBool (b : bool).

Definition cellTruthy (c : Cell) : bool :=
  match c with
  | CellEmpty => false
  | CellNumber n => truthy n
  | CellText s => string_truthy s
  | CellBool b => b
  end.

(** Handle Excel dates or string dates: the date [parseUploadedFile] gives
    a row.  [now] is the time value of [new Date()], and [parseText] the
    host's reading of a date text; [None] is an invalid date. *)
Definition rowDate (now : Z) (parseText : string -> option Z) (rawDate : Cell)
  : option Z :=
  if cellTruthy rawDate then
    match rawDate with
    | CellNumber n => Date.of_number (excelSerialTime n)
    | CellText s => parseText s
    | CellBool b => Date.of_number (if b then one else zero)
    | CellEmpty => Date.of_number NaN
    end
  else Some now.

End DataService.



(* ===================================================================== *)
(** ** App.tsx                                                           *)
(* ===================================================================== *)

Module App.

(** The rate table.  Its initial value has the four foreign currencies;
    [BRL] is present only if a rate was ever written under that key. *)
Record Rates : Type := mkRates {
  rBRL : option number;
  rUSD : number;
  rARS : number;
  rPYG : number;
  rUYU : number
}.

Definition initialRates : Rates :=
  {| rBRL := None;
     rUSD := num 5.75;
     rARS := num 215;
     rPYG := num 1400;
     rUYU := num 7.6 |}.

(** [rates[currency]]. *)
Definition rate_of (rates : Rates) (currency : Currency) : option number :=
  match currency with
  | BRL => rBRL rates
  | USD => Some (rUSD rates)
  | ARS => Some (rARS rates)
  | PYG => Some (rPYG rates)
  | UYU => Some (rUYU rates)
  end.

(** [{...prev, [currency]: v}]. *)
Definition with_rate (prev : Rates) (currency : Currency) (v : number) : Rates :=
  match currency with
  | BRL => {| rBRL := Some v; rUSD := rUSD prev; rARS := rARS prev;
              rPYG := rPYG prev; rUYU := rUYU prev |}
  | USD => {| rBRL := rBRL prev; rUSD := v; rARS := rARS prev;
              rPYG := rPYG prev; rUYU := rUYU prev |}
  | ARS => {| rBRL := rBRL prev; rUSD := rUSD prev; rARS := v;
              rPYG := rPYG prev; rUYU := rUYU prev |}
  | PYG => {| rBRL := rBRL prev; rUSD := rUSD prev; rARS := rARS prev;
              rPYG := v; rUYU := rUYU prev |}
  | UYU => {| rBRL := rBRL prev; rUSD := rUSD prev; rARS := rARS prev;
              rPYG := rPYG prev; rUYU := v |}
  end.

(** Calculate Conversion Factor (Multiplier). *)
Definition conversionFactor (currency : Currency) (rates : Rates) : number :=
  match currency with
  | BRL => one
  | USD => div one (rUSD rates)
  | ARS => rARS rates
  | PYG => rPYG rates
  | UYU => rUYU rates
  end.

Definition minRate : number := num 0.0001.

(** [Math.max(0.0001, parseFloat(e.target.value) || 0)]. *)
Definition clampRate (input : string) : number :=
  Math_max [minRate; or_else (parseFloat input) zero].

(** The rate input's [onChange], as the update it passes to [setRates]. *)
Definition onRateChange (currency : Currency) (input : string) (prev : Rates) : Rates :=
  with_rate prev currency (clampRate input).

Record Metrics : Type := mkMetrics {
  totalSales : number;
  totalQuantity : number;
  totalProfit : number;
  avgTicket : number
}.

(** Aggregated Metrics. *)
Definition metrics (filteredData : list SaleRecord) : Metrics :=
  {| totalSales := reduce (fun sum item => add sum (sales item)) zero filteredData;
     totalQuantity := reduce (fun sum item => add sum (quantity item)) zero filteredData;
     totalProfit := reduce (fun sum item => add sum (profit item)) zero filteredData;
     avgTicket :=
       if (0 <? List.length filteredData)%nat
       then div (reduce (fun sum item => add sum (sales item)) zero filteredData)
                (of_nat (List.length filteredData))
       else zero |}.

(** Toggle Selection Helper: the list it passes to the setter. *)
Definition toggleSelection (item : string) (currentList : list string) : list string :=
  if includes currentList item
  then filter (fun i => negb (String.eqb i item)) currentList
  else currentList ++ [item].

(** Derived Filters Lists. *)
Definition uniqueRegions (rawData : list SaleRecord) : list string :=
  sort default_compare (filter string_truthy (from_Set (map region rawData))).

Definition uniqueCategories (rawData : list SaleRecord) : list string :=
  sort default_compare (filter string_truthy (from_Set (map category rawData))).

(** Auto-switch currency on language change: the currency in force once
    the effect has run. *)
Definition currencyForLanguage (language : Language) (currency : Currency) : Currency :=
  match language with
  | pt => BRL
  | en => USD
  | es =>
      match currency with
      | ARS | PYG | UYU => currency
      | _ => ARS
      end
  end.

End App.

(* ===================================================================== *)
(** ** services/databaseService.ts                                       *)
(* ===================================================================== *)

Module DatabaseService.

Record User : Type := mkUser {
  userId : string;
  email : string;
  userName : string;
  token : string
}.

(** The session kept under [dashboard_user_session]: the user last
    written there, if any. *)
Definition Session : Type := option User.

(** The test that guards [login]. *)
Definition credentialsAccepted (email password : string) : bool :=
  (String.eqb email "admin@admin.com" && String.eqb password "1234")
  || (string_includes email "admin" && (3 <=? String.length password)%nat).

(** [login]: on success the user is stored as the session and returned;
    otherwise the error is thrown and the session is left as it was.
    [now] is the text of [Date.now()]. *)
Definition login (now : string) (email password : string) (session : Session)
  : (User + string) * Session :=
  if credentialsAccepted email password then
    let user := {| userId := "u-123456";
                   email := email;
                   userName := before_first "@" email;
                   token := ("mock-jwt-token-" ++ now)%string |} in
    (inl user, Some user)
  else (inr "Invalid credentials"%string, session).

Definition logout (session : Session) : Session := None.

Definition getCurrentUser (session : Session) : option User := session.

End DatabaseService.

(* ===================================================================== *)
(** ** components/ChartsSection.tsx                                      *)
(* ===================================================================== *)

Module ChartsSection.

Record CategoryEntry : Type := mkEntry {
  name : string;
  originalName : string;
  value : number
}.

(** The [reduce] that groups sales by category. *)
Definition grouped (data : list SaleRecord) : object :=
  reduce (fun acc curr =>
            set acc (category curr)
                (value_plus (value_or_zero (get acc (category curr))) (sales curr)))
         [] data.

(** 1. Sales by Category.  [getDataTranslation] comes from
    utils/translations and is taken as a parameter. *)
Definition categoryData (getDataTranslation : string -> Language -> string)
           (data : list SaleRecord) (lang : Language) (conversionFactor : number)
  : list CategoryEntry :=
  sort (fun a b => sub (value b) (value a))
       (map (fun e : string * JS.value =>
               {| name := getDataTranslation (fst e) lang;
                  originalName := fst e;
                  value := value_times (snd e) conversionFactor |})
            (entries (grouped data))).

Record RegionEntry : Type := mkRegion {
  subject : string;
  A : number;
  fullMark : number
}.

(** The [reduce] that groups sales by region. *)
Definition groupedByRegion (data : list SaleRecord) : object :=
  reduce (fun acc curr =>
            set acc (region curr)
                (value_plus (value_or_zero (get acc (region curr))) (sales curr)))
         [] data.

(** 3. Regional Performance (Radar).  [Object.values] lists the values in
    the order of [Object.entries]; [Math.max] reads each as a number. *)
Definition regionData (getDataTranslation : string -> Language -> string)
           (data : list SaleRecord) (lang : Language) (conversionFactor : number)
  : list RegionEntry :=
  map (fun e : string * JS.value =>
         {| subject := getDataTranslation (fst e) lang;
            A := value_times (snd e) conversionFactor;
            fullMark :=
              mul (Math_max (map (fun e' => to_number (snd e'))
                                 (entries (groupedByRegion data))))
                  conversionFactor |})
      (entries (groupedByRegion data)).

Record TimePoint : Type := mkTimePoint {
  tdate : string;
  tsales : number
}.

(** The [reduce] that groups sales by UTC day. *)
Definition groupedByDay (data : list SaleRecord) : object :=
  reduce (fun acc curr =>
            let key := Date.isoDate (date curr) in
            set acc key (value_plus (value_or_zero (get acc key)) (sales curr)))
         [] data.

(** 2. Sales over Time. *)
Definition timeData (data : list SaleRecord) (conversionFactor : number)
  : list TimePoint :=
  sort (fun a b => sub (Date.time_number (Date.parse_any (tdate a)))
                       (Date.time_number (Date.parse_any (tdate b))))
       (map (fun e : string * JS.value =>
               {| tdate := fst e; tsales := value_times (snd e) conversionFactor |})
            (entries (groupedByDay data))).

End ChartsSection.

(* ===================================================================== *)
(** ** components/DataGrid.tsx                                           *)
(* ===================================================================== *)

Module DataGrid.

(** [keyof SaleRecord]. *)
Inductive SaleKey : Type :=
| Kid | Kdate | Kcategory | Kproduct | Kregion | Ksales | Kquantity | Kprofit.

Inductive Direction : Type := asc | desc.

Record SortConfig : Type := mkSort {
  key : SaleKey;
  direction : Direction
}.

Definition key_eqb (a b : SaleKey) : bool :=
  match a, b with
  | Kid, Kid | Kdate, Kdate | Kcategory, Kcategory | Kproduct, Kproduct
  | Kregion, Kregion | Ksales, Ksales | Kquantity, Kquantity | Kprofit, Kprofit => true
  | _, _ => false
  end.

(** Sorting Logic: the state [handleSort] passes to [setSortConfig]. *)
Definition handleSort (sortConfig : option SortConfig) (k : SaleKey) : option SortConfig :=
  let direction :=
    match sortConfig with
    | Some current =>
        if negb (key_eqb (key current) k) then
          (if existsb (key_eqb k) [Ksales; Kprofit; Kquantity; Kdate] then desc else asc)
        else
          match direction current with asc => desc | desc => asc end
    | None =>
        if existsb (key_eqb k) [Ksales; Kprofit; Kquantity; Kdate] then desc else asc
    end in
  Some {| key := k; direction := direction |}.

(** A string is truthy unless it is empty. *)
Definition nonempty (s : string) : bool :=
  match s with EmptyString => false | _ => true end.

(** 1. Filter Data by Date Range (if selected), on a host whose offset
    from UTC is always [tz]; [startDate] and [endDate] are the values of
    the two date inputs. *)
Definition filteredByDateData (tz : Z) (data : list SaleRecord)
           (startDate endDate : string) : list SaleRecord :=
  if negb (nonempty startDate) && negb (nonempty endDate) then data
  else
    let startTs :=
      if nonempty startDate
      then Date.time_number (Date.setHours tz (Date.parse startDate) 0 0 0 0)
      else NegInf in
    let endTs :=
      if nonempty endDate
      then Date.time_number (Date.setHours tz (Date.parse endDate) 23 59 59 999)
      else PosInf in
    filter (fun item =>
              let itemTs := of_Z (date item) in
              geb itemTs startTs && leb itemTs endTs)
           data.

(** The same filter on a host in any time zone, clock changes
    included. *)
Definition filteredByDateDataIn (zone : Date.Zone) (data : list SaleRecord)
           (startDate endDate : string) : list SaleRecord :=
  if negb (nonempty startDate) && negb (nonempty endDate) then data
  else
    let startTs :=
      if nonempty startDate
      then Date.time_number (Date.setHoursIn zone (Date.parse startDate) 0 0 0 0)
      else NegInf in
    let endTs :=
      if nonempty endDate
      then Date.time_number (Date.setHoursIn zone (Date.parse endDate) 23 59 59 999)
      else PosInf in
    filter (fun item =>
              let itemTs := of_Z (date item) in
              geb itemTs startTs && leb itemTs endTs)
           data.

(** Min/Max for Heatmap logic. *)
Definition maxSales (sortedData : list SaleRecord) : number :=
  Math_max (map sales sortedData ++ [zero]).

Definition minSales (sortedData : list SaleRecord) : number :=
  Math_min (map sales sortedData ++ [zero]).

Definition maxProfit (sortedData : list SaleRecord) : number :=
  Math_max (map profit sortedData ++ [zero]).

(** Resolve Locale. *)
Definition locale (currency : Currency) : string :=
  match currency with
  | BRL => "pt-BR"
  | ARS => "es-AR"
  | PYG => "es-PY"
  | UYU => "es-UY"
  | USD => "en-US"
  end.

(** What rendering and export take from the host and from
    utils/translations: the Intl formatters, the data labels, the column
    headers, and the printing of numbers. *)
Record Host : Type := mkHost {
  formatDate : Z -> string -> string;
  formatCurrency : number -> Currency -> string -> string;
  getDataTranslation : string -> Language -> string;
  toFixed2 : number -> string;
  numberToString : number -> string;
  colDate : string;
  colCat : string;
  colProd : string;
  colReg : string;
  colSales : string;
  colQty : string;
  colProfit : string
}.

(** A row of the table body: a record's row with its React key and the
    text of its seven cells, or the single "No data found" row. *)
Inductive BodyRow : Type :=
| DataRow (rowKey : string) (cells : list string)
| NoDataRow.

Definition dataRow (h : Host) (lang : Language) (currency : Currency)
           (conversionFactor : number) (row : SaleRecord) : BodyRow :=
  DataRow (id row)
          [formatDate h (date row) (locale currency);
           getDataTranslation h (category row) lang;
           getDataTranslation h (region row) lang;
           product row;
           formatCurrency h (mul (sales row) conversionFactor) currency (locale currency);
           numberToString h (quantity row);
           formatCurrency h (mul (profit row) conversionFactor) currency (locale currency)].

(** The [tbody] of the table. *)
Definition tableBody (h : Host) (lang : Language) (currency : Currency)
           (conversionFactor : number) (sortedData : list SaleRecord) : list BodyRow :=
  if (0 <? List.length sortedData)%nat
  then map (dataRow h lang currency conversionFactor) (slice0 100 sortedData)
  else [NoDataRow].

(** The note under the table: "Showing first 100 rows of N records.
    Export to see all." *)
Definition showsTruncationNote (sortedData : list SaleRecord) : bool :=
  (100 <? List.length sortedData)%nat.

Definition csvRow (h : Host) (lang : Language) (currency : Currency)
           (conversionFactor : number) (row : SaleRecord) : list string :=
  [formatDate h (date row) (locale currency);
   getDataTranslation h (category row) lang;
   product row;
   getDataTranslation h (region row) lang;
   toFixed2 h (mul (sales row) conversionFactor);
   numberToString h (quantity row);
   toFixed2 h (mul (profit row) conversionFactor)].

Definition csvHeaders (h : Host) : list string :=
  [colDate h; colCat h; colProd h; colReg h; colSales h; colQty h; colProfit h].

Definition newline : string := String (ascii_of_nat 10) EmptyString.

(** [handleExportCSV]: the rows it builds and the text it joins them
    into, which [encodeURI] then turns into the download link. *)
Definition exportRows (h : Host) (lang : Language) (currency : Currency)
           (conversionFactor : number) (sortedData : list SaleRecord) : list (list string) :=
  map (csvRow h lang currency conversionFactor) sortedData.

Definition csvContent (h : Host) (lang : Language) (currency : Currency)
           (conversionFactor : number) (sortedData : list SaleRecord) : string :=
  ("data:text/csv;charset=utf-8,"
   ++ join newline
        (join "," (csvHeaders h)
         :: map (join ",") (exportRows h lang currency conversionFactor sortedData)))%string.

(** What [a[sortConfig.key]] holds: a number (a date counts by its time
    value) or a string. *)
Inductive SortValue : Type :=
| SNum (n : number)
| SStr (s : string).

(** [row[key]], with the localized label for Category and Region. *)
Definition sortValue (h : Host) (lang : Language) (k : SaleKey) (row : SaleRecord)
  : SortValue :=
  match k with
  | Kid => SStr (id row)
  | Kdate => SNum (of_Z (date row))
  | Kcategory => SStr (getDataTranslation h (category row) lang)
  | Kproduct => SStr (product row)
  | Kregion => SStr (getDataTranslation h (region row) lang)
  | Ksales => SNum (sales row)
  | Kquantity => SNum (quantity row)
  | Kprofit => SNum (profit row)
  end.

(** [a < b] on two values of the same field: numbers by value, strings
    by code units. *)
Definition value_lt (a b : SortValue) : bool :=
  match a, b with
  | SNum x, SNum y => ltb x y
  | SStr x, SStr y => String.ltb x y
  | _, _ => false
  end.

(** The comparator of the table sort. *)
Definition compareRows (h : Host) (lang : Language) (config : SortConfig)
           (a b : SaleRecord) : number :=
  let aValue := sortValue h lang (key config) a in
  let bValue := sortValue h lang (key config) b in
  if value_lt aValue bValue then
    match direction config with asc => of_Z (-1) | desc => one end
  else if value_lt bValue aValue then
    match direction config with asc => one | desc => of_Z (-1) end
  else zero.

(** 2. Sort the Filtered Data. *)
Definition sortedData (h : Host) (lang : Language) (sortConfig : option SortConfig)
           (filteredByDate : list SaleRecord) : list SaleRecord :=
  match sortConfig with
  | None => filteredByDate
  | Some config => sort (compareRows h lang config) filteredByDate
  end.

Inductive HeatType : Type := positive | diverging.

(** A CSS [rgba(r, g, b, a)] colour. *)
Record Rgba : Type := mkRgba {
  red : Z;
  green : Z;
  blue : Z;
  alpha : number
}.

(** Helper to calculate color intensity for "heatmap" effect. *)
Definition getBackgroundColor (theme : Theme) (value min max : number)
           (type : HeatType) : Rgba :=
  let baseOpacity := match theme with dark => num 0.3 | light => num 0.1 end in
  let maxOpacity := match theme with dark => num 0.7 | light => num 0.5 end in
  match type with
  | positive =>
      let percentage := div (sub value min) (sub max min) in
      mkRgba 59 130 246 (add baseOpacity (mul percentage (sub maxOpacity baseOpacity)))
  | diverging =>
      if ltb value zero then mkRgba 239 68 68 (add baseOpacity (num 0.1))
      else
        let percentage := div value max in
        mkRgba 34 197 94 (add baseOpacity (mul percentage (sub maxOpacity baseOpacity)))
  end.

(** The background of the Sales and Profit cells of a table row. *)
Definition salesCellColor (theme : Theme) (sortedData : list SaleRecord)
           (row : SaleRecord) : Rgba :=
  getBackgroundColor theme (sales row) (minSales sortedData) (maxSales sortedData) positive.

Definition profitCellColor (theme : Theme) (sortedData : list SaleRecord)
           (row : SaleRecord) : Rgba :=
  getBackgroundColor theme (profit row) zero (maxProfit sortedData) diverging.

End DataGrid.

(* ===================================================================== *)
(** ** Specification vocabulary                                          *)
(* ===================================================================== *)

(** The membership predicate of the filter engine, in the spec's words. *)
Definition passes (regions categories : list string) (r : SaleRecord) : Prop :=
  (regions = [] \/ In (region r) regions) /\
  (categories = [] \/ In (category r) categories).

(** [Selects P l out]: [out] is exactly the subsequence of [l] made of the
  elements that satisfy [P], each kept at its place. *)
Inductive Selects {A : Type} (P : A -> Prop) : list A -> list A -> Prop :=
| Selects_nil : Selects P [] []
| Selects_keep x l out : P x -> Selects P l out -> Selects P (x :: l) (x :: out)
| Selects_drop x l out : ~ P x -> Selects P l out -> Selects P (x :: l) out.

(** The default direction of a column, in the spec's words. *)
Definition default_direction (k : DataGrid.SaleKey) : DataGrid.Direction :=
  match k with
  | DataGrid.Ksales | DataGrid.Kprofit | DataGrid.Kquantity | DataGrid.Kdate => DataGrid.desc
  | _ => DataGrid.asc
  end.

Definition toggled (d : DataGrid.Direction) : DataGrid.Direction :=
  match d with DataGrid.asc => DataGrid.desc | DataGrid.desc => DataGrid.asc end.

(** The active sort key, if any. *)
Definition active_key (sortConfig : option DataGrid.SortConfig) : option DataGrid.SaleKey :=
  option_map DataGrid.key sortConfig.

(** Two records used as concrete inputs: the first dated 15 January 2024
    at noon in Sao Paulo (UTC-3), the second the day before at noon. *)
Definition sample_north : SaleRecord :=
  {| id := "a"; date := 1705330800000; category := "Electronics"; product := "Product 1";
     region := "North"; sales := of_Z 100; quantity := of_Z 2; profit := of_Z 10 |}.

Definition sample_south : SaleRecord :=
  {| id := "b"; date := 1705244400000; category := "Food"; product := "Product 2";
     region := "South"; sales := of_Z 50; quantity := of_Z 1; profit := of_Z 5 |}.

(** [m] is the greatest, respectively the least, of the numbers [l]. *)
Definition is_max_of (m : number) (l : list number) : Prop :=
  In m l /\ Forall (fun x => leb x m = true) l.

Definition is_min_of (m : number) (l : list number) : Prop :=
  In m l /\ Forall (fun x => leb m x = true) l.

(** A host whose formatters print nothing, for concrete inputs. *)
Definition sample_host : DataGrid.Host :=
  {| DataGrid.formatDate := fun _ _ => EmptyString;
     DataGrid.formatCurrency := fun _ _ _ => EmptyString;
     DataGrid.getDataTranslation := fun s _ => s;
     DataGrid.toFixed2 := fun _ => EmptyString;
     DataGrid.numberToString := fun _ => EmptyString;
     DataGrid.colDate := "Date"; DataGrid.colCat := "Category";
     DataGrid.colProd := "Product"; DataGrid.colReg := "Region";
     DataGrid.colSales := "Sales"; DataGrid.colQty := "Quantity";
     DataGrid.colProfit := "Profit" |}.

(** What the table shows of a record: a row keyed by the record's id,
    whose cells are the date, the translated category, the translated
    region, the product, the converted sales as currency, the quantity and
    the converted profit as currency. *)
Definition shows (h : DataGrid.Host) (lang : Language) (currency : Currency)
           (factor : number) (row : DataGrid.BodyRow) (r : SaleRecord) : Prop :=
  row = DataGrid.DataRow
          (id r)
          [DataGrid.formatDate h (date r) (DataGrid.locale currency);
           DataGrid.getDataTranslation h (category r) lang;
           DataGrid.getDataTranslation h (region r) lang;
           product r;
           DataGrid.formatCurrency h (mul (sales r) factor) currency
                                   (DataGrid.locale currency);
           DataGrid.numberToString h (quantity r);
           DataGrid.formatCurrency h (mul (profit r) factor) currency
                                   (DataGrid.locale currency)].

(** What the export writes of a record: the date, the translated
    category, the product, the translated region, the converted sales
    with two decimals, the quantity and the converted profit with two
    decimals. *)
Definition exports (h : DataGrid.Host) (lang : Language) (currency : Currency)
           (factor : number) (line : list string) (r : SaleRecord) : Prop :=
  line = [DataGrid.formatDate h (date r) (DataGrid.locale currency);
          DataGrid.getDataTranslation h (category r) lang;
          product r;
          DataGrid.getDataTranslation h (region r) lang;
          DataGrid.toFixed2 h (mul (sales r) factor);
          DataGrid.numberToString h (quantity r);
          DataGrid.toFixed2 h (mul (profit r) factor)].

(** The rows of a table body that stand for records: all but the
    "No data found" row. *)
Definition recordRows (body : list DataGrid.BodyRow) : list DataGrid.BodyRow :=
  filter (fun row => match row with
                     | DataGrid.DataRow _ _ => true
                     | DataGrid.NoDataRow => false
                     end)
         body.

(** The sum of a list of numbers. *)
Definition sum_of (l : list number) : number := fold_right add zero l.

(** A total that, multiplied by the conversion factor or not, stays
    within 10^300: far enough below the largest number (about 1.8 * 10^308)
    for no sum or product of the parts of the total to overflow. *)
Definition within_number_range (total factor : number) : Prop :=
  leb (mul total (Math_max [one; factor])) (of_Z (10 ^ 300)) = true.

(** The numbers of a list added one after the other onto [start], and
    their running total from 0. *)
Fixpoint added_onto (start : number) (l : list number) : number :=
  match l with
  | [] => start
  | x :: rest => added_onto (add start x) rest
  end.

Definition running_total (l : list number) : number := added_onto zero l.

(** Every property of the object holds a finite number. *)
Definition fin_valued (o : object) : Prop :=
  Forall (fun e => exists q, snd e = VNum (Fin q)) o.

(** The sum of the properties of [o], each multiplied by [f]. *)
Definition scaled_sum (f : number) (o : object) : number :=
  sum_of (map (fun e => value_times (snd e) f) o).

(** The first and the last millisecond of the local day that the date
    input's value [s] names, as time values ([tz] is local minus UTC). *)
Definition local_day_start (tz : Z) (s : string) : option Z :=
  match Date.civil_day s with
  | Some day => Some (day * Date.msPerDay - tz)%Z
  | None => None
  end.

Definition local_day_end (tz : Z) (s : string) : option Z :=
  match Date.civil_day s with
  | Some day => Some (day * Date.msPerDay + (Date.msPerDay - 1) - tz)%Z
  | None => None
  end.

(** The time value [ts] lies in the closed interval from 00:00:00.000 of
    the start day to 23:59:59.999 of the end day; an empty input leaves
    its side unbounded. *)
Definition in_date_range (tz : Z) (startDate endDate : string) (ts : Z) : Prop :=
  (startDate = EmptyString
   \/ exists t, local_day_start tz startDate = Some t /\ (t <= ts)%Z)
  /\ (endDate = EmptyString
      \/ exists t, local_day_end tz endDate = Some t /\ (ts <= t)%Z).

(** A record with the given time value, and one sold under the given
    category. *)
Definition dated (t : Z) : SaleRecord :=
  {| id := "d"; date := t; category := "Food"; product := "Product 3";
     region := "East"; sales := of_Z 20; quantity := of_Z 1; profit := of_Z 2 |}.

Definition sold_as (c : string) : SaleRecord :=
  {| id := "c"; date := 1705330800000; category := c; product := "Product 4";
     region := "West"; sales := of_Z 100; quantity := of_Z 1; profit := of_Z 10 |}.

(** Sao Paulo's offset from UTC, three hours behind. *)
Definition utc_minus_3 : Z := (-10800000)%Z.

(** [a <= b] on two sort values of the same kind. *)
Definition value_le (a b : DataGrid.SortValue) : Prop :=
  match a, b with
  | DataGrid.SNum x, DataGrid.SNum y => leb x y = true
  | DataGrid.SStr x, DataGrid.SStr y => String.leb x y = true
  | _, _ => False
  end.

(** Two rows are in the order the direction asks for. *)
Definition in_order (d : DataGrid.Direction) (a b : DataGrid.SortValue) : Prop :=
  match d with
  | DataGrid.asc => value_le a b
  | DataGrid.desc => value_le b a
  end.

(** A sort value that compares with every other: anything but NaN. *)
Definition comparable (v : DataGrid.SortValue) : Prop :=
  match v with
  | DataGrid.SNum n => is_nan n = false
  | DataGrid.SStr _ => True
  end.

Definition sort_value_eqb (a b : DataGrid.SortValue) : bool :=
  match a, b with
  | DataGrid.SNum x, DataGrid.SNum y => JS.eqb x y
  | DataGrid.SStr x, DataGrid.SStr y => String.eqb x y
  | _, _ => false
  end.

(** The language's own code, as the [Language] type spells it. *)
Definition language_code (l : Language) : string :=
  match l with en => "en" | pt => "pt" | es => "es" end.

(** Every rate of the table is at least the minimum rate. *)
Definition rates_floor (rates : App.Rates) : Prop :=
  match App.rBRL rates with Some v => leb App.minRate v = true | None => True end
  /\ leb App.minRate (App.rUSD rates) = true
  /\ leb App.minRate (App.rARS rates) = true
  /\ leb App.minRate (App.rPYG rates) = true
  /\ leb App.minRate (App.rUYU rates) = true.

(** The rate table after a series of edits of the rate input, each made
    with some currency selected. *)
Definition after_edits (edits : list (Currency * string)) (rates : App.Rates) : App.Rates :=
  fold_left (fun r e => App.onRateChange (fst e) (snd e) r) edits rates.

(** The selection after a series of clicks on filter buttons. *)
Definition after_toggles (clicks : list string) (selection : list string) : list string :=
  fold_left (fun sel item => App.toggleSelection item sel) clicks selection.

(** A selection is at least as wide as another when it lets through
    everything the other does. *)
Definition wider (sel sel' : list string) : Prop :=
  sel' = [] \/ (sel <> [] /\ incl sel sel').

(** The UTC instant at which the clocks of a host in [zone] show the
    local time value [local]. *)
Definition wall_clock (zone : Date.Zone) (local : Z) : Z :=
  (local - Date.offsetOfLocal zone local)%Z.

(** The date input's value [s] is empty, or it names a day at whose UTC
    midnight the host's local date is [shift] days from that day: 0 where
    the host is then at or ahead of UTC, -1 where it is behind. *)
Definition utc_midnight_falls (zone : Date.Zone) (shift : Z) (s : string) : Prop :=
  s = EmptyString
  \/ exists day, Date.civil_day s = Some day
                 /\ (shift * Date.msPerDay
                     <= Date.offsetAt zone (day * Date.msPerDay)
                     < (shift + 1) * Date.msPerDay)%Z.

(** The time value [ts] lies between the instants at which the host's
    clocks show 00:00:00.000 of the day [shift] days from the start day
    and 23:59:59.999 of the day [shift'] days from the end day; an empty
    input leaves its side unbounded. *)
Definition in_local_days (zone : Date.Zone) (shift shift' : Z)
           (startDate endDate : string) (ts : Z) : Prop :=
  (startDate = EmptyString
   \/ exists day, Date.civil_day startDate = Some day
                  /\ (wall_clock zone ((day + shift) * Date.msPerDay) <= ts)%Z)
  /\ (endDate = EmptyString
      \/ exists day, Date.civil_day endDate = Some day
                     /\ (ts <= wall_clock zone ((day + shift') * Date.msPerDay
                                                + (Date.msPerDay - 1)))%Z).

(** From the day before [endDay] to the day after [startDay] the host's
    offset from UTC is [tz] throughout. *)
Definition steady_between (zone : Date.Zone) (tz endDay startDay : Z) : Prop :=
  forall t, ((endDay - 1) * Date.msPerDay <= t <= (startDay + 1) * Date.msPerDay)%Z ->
            Date.offsetAt zone t = tz /\ Date.offsetOfLocal zone t = tz.

(** Two hosts around a clock change of 2024.  Berlin goes from UTC+1 to
    UTC+2 on 31 March at 01:00 UTC, when its clocks jump from 02:00 to
    03:00; New York from UTC-5 to UTC-4 on 10 March at 07:00 UTC, when its
    clocks jump from 02:00 to 03:00. *)
Definition berlin_2024 : Date.Zone :=
  {| Date.offsetAt := fun t => if (t <? 1711846800000)%Z then 3600000%Z else 7200000%Z;
     Date.offsetOfLocal :=
       fun l => if (l <? 1711846800000 + 7200000)%Z then 3600000%Z else 7200000%Z |}.

(** The Azores around the end of summer time 2024: from UTC+0 to UTC-1 on
    27 October at 01:00 UTC, when the clocks go back from 01:00 to 00:00;
    the hour that occurs twice is read as its first occurrence. *)
Definition azores_2024 : Date.Zone :=
  {| Date.offsetAt := fun t => if (t <? 1729990800000)%Z then 0%Z else (-3600000)%Z;
     Date.offsetOfLocal := fun l => if (l <? 1729990800000)%Z then 0%Z else (-3600000)%Z |}.

Definition new_york_2024 : Date.Zone :=
  {| Date.offsetAt :=
       fun t => if (t <? 1710054000000)%Z then (-18000000)%Z else (-14400000)%Z;
     Date.offsetOfLocal :=
       fun l => if (l <? 1710054000000 - 14400000)%Z
                then (-18000000)%Z else (-14400000)%Z |}.

(** The two ends of the heatmap's opacity scale, per theme. *)
Definition base_opacity (theme : Theme) : number :=
  match theme with dark => num 0.3 | light => num 0.1 end.

Definition max_opacity (theme : Theme) : number :=
  match theme with dark => num 0.7 | light => num 0.5 end.

(** The part of [civil_from_days] that works inside one 400-year era,
    from the day of the era. *)
Definition era_fields (doe : Z) : Z * Z * Z :=
  let yoe := ((doe - doe / 1460 + doe / 36524 - doe / 146096) / 365)%Z in
  let doy := (doe - (365 * yoe + yoe / 4 - yoe / 100))%Z in
  let mp := ((5 * doy + 2) / 153)%Z in
  let d := (doy - (153 * mp + 2) / 5 + 1)%Z in
  let m := if (mp <? 10)%Z then (mp + 3)%Z else (mp - 9)%Z in
  (if (m <=? 2)%Z then (yoe + 1)%Z else yoe, m, d).

(** What makes a day of the era a proper calendar date. *)
Definition era_day_ok (doe : Z) : bool :=
  let '(y, m, d) := era_fields doe in
  ((0 <=? y) && (y <=? 400) && (1 <=? m) && (m <=? 12) && (1 <=? d)
   && (d <=? Date.days_in_month y m)
   && (Date.days_from_civil y m d =? doe - 719468))%Z.

(** The sum of the sales of the records that [p] picks. *)
Definition sales_where (p : SaleRecord -> bool) (data : list SaleRecord) : number :=
  sum_of (map sales (filter p data)).

(** The sum of the sales of the records whose UTC day prints as [day]. *)
Definition day_sales (data : list SaleRecord) (day : string) : number :=
  sales_where (fun r => String.eqb (Date.isoDate (date r)) day) data.

(** The time values a [Date] can hold: 100 million days on either side of
    the epoch. *)
Definition valid_time (t : Z) : Prop :=
  (-8640000000000000 <= t <= 8640000000000000)%Z.

(** Both texts read as dates, and the first names the earlier day. *)
Definition earlier_day (s s' : string) : Prop :=
  match Date.parse_any s, Date.parse_any s' with
  | Some t, Some t' => (t < t')%Z
  | _, _ => False
  end.

(* ===================================================================== *)
(** ** Facts about the built-ins                                         *)
(* ===================================================================== *)

Lemma includes_In (arr : list string) (x : string) :
  includes arr x = true <-> In x arr.
Proof.
  unfold includes. rewrite existsb_exists. split.
  - intros [y [Hy Heq]]. apply String.eqb_eq in Heq. now subst.
  - intros H. exists x. split; [assumption | apply String.eqb_refl].
Qed.

Lemma length_zero_nil {A : Type} (l : list A) :
  (List.length l =? 0)%nat = true <-> l = [].
Proof.
  destruct l; simpl; split; intros H; try reflexivity; discriminate.
Qed.

Lemma selection_match (sel : list string) (x : string) :
  (List.length sel =? 0)%nat || includes sel x = true <-> sel = [] \/ In x sel.
Proof.
  rewrite orb_true_iff, length_zero_nil, includes_In. reflexivity.
Qed.

Lemma Selects_filter {A : Type} (P : A -> Prop) (f : A -> bool) (l : list A) :
  (forall x, f x = true <-> P x) -> Selects P l (filter f l).
Proof.
  intros Hf. induction l as [| x l IH]; simpl.
  - constructor.
  - destruct (f x) eqn:E.
    + apply Selects_keep; [now apply Hf | exact IH].
    + apply Selects_drop; [| exact IH].
      intros HP. apply Hf in HP. congruence.
Qed.

Lemma Selects_In {A : Type} (P : A -> Prop) (l out : list A) :
  Selects P l out -> forall x, In x out <-> In x l /\ P x.
Proof.
  induction 1 as [| x l out HP Hs IH | x l out HP Hs IH]; intros y; simpl.
  - tauto.
  - rewrite IH. split.
    + intros [-> | [Hin Hy]]; auto.
    + intros [[-> | Hin] Hy]; auto.
  - rewrite IH. split.
    + intros [Hin Hy]; auto.
    + intros [[-> | Hin] Hy]; [contradiction | auto].
Qed.

Lemma filter_all {A : Type} (f : A -> bool) (l : list A) :
  (forall x, In x l -> f x = true) -> filter f l = l.
Proof.
  induction l as [| x l IH]; simpl; intros H; [reflexivity |].
  rewrite (H x (or_introl eq_refl)). f_equal. apply IH. intros y Hy. apply H. now right.
Qed.

(* ===================================================================== *)
(** ** Filter engine                                                     *)
(* ===================================================================== *)

Section FilterEngine.

Import DataService.

Lemma filterData_pass (rs cs : list string) (r : SaleRecord) :
  ((List.length rs =? 0)%nat || includes rs (region r))
    && ((List.length cs =? 0)%nat || includes cs (category r)) = true
  <-> passes rs cs r.
Proof.
  unfold passes. rewrite andb_true_iff, !selection_match. reflexivity.
Qed.

(** C1.  [filterData] returns exactly the subsequence of the records that
  pass the membership predicate (region selected or no region selected,
  and category selected or no category selected), in their original
  order; hence its elements are the passing elements of the input, with
  no selection the input comes back unchanged, and an empty input gives
  an empty result. *)
Theorem filterData_selects (data : list SaleRecord) (rs cs : list string) :
  Selects (passes rs cs) data (filterData data rs cs)
  /\ (forall r, In r (filterData data rs cs) <-> In r data /\ passes rs cs r)
  /\ incl (filterData data rs cs) data
  /\ filterData data [] [] = data
  /\ filterData [] rs cs = [].
Proof.
  assert (Hsel : Selects (passes rs cs) data (filterData data rs cs)).
  { unfold filterData. apply Selects_filter. intros r. apply filterData_pass. }
  split; [exact Hsel |].
  split; [exact (Selects_In _ _ _ Hsel) |].
  split.
  - intros r Hr. now apply (Selects_In _ _ _ Hsel) in Hr.
  - split; [| reflexivity].
    unfold filterData. apply filter_all. intros; reflexivity.
Qed.

(** C9.  Filtering twice with the same selections is filtering once. *)
Theorem filterData_idempotent (data : list SaleRecord) (rs cs : list string) :
  filterData (filterData data rs cs) rs cs = filterData data rs cs.
Proof.
  unfold filterData. apply filter_all.
  intros r Hr. apply filter_In in Hr. exact (proj2 Hr).
Qed.

End FilterEngine.

(* ===================================================================== *)
(** ** Facts about numbers                                               *)
(* ===================================================================== *)

Lemma eqb_eq (a b : number) : JS.eqb a b = true -> a = b.
Proof.
  destruct a, b; simpl; intros H; try reflexivity; try discriminate.
  apply Qc_eq_bool_correct in H. now subst.
Qed.

(** Closes an equation between two closed numbers by evaluation. *)
Ltac number_eq := apply eqb_eq; vm_compute; reflexivity.

Lemma Qc_ltb_lt (a b : Qc) : Qc_ltb a b = true <-> (a < b)%Qc.
Proof.
  unfold Qc_ltb. rewrite Qclt_alt. destruct (a ?= b)%Qc; split; congruence.
Qed.

Lemma Qc_leb_le (a b : Qc) : Qc_leb a b = true <-> (a <= b)%Qc.
Proof.
  unfold Qc_leb. rewrite Qcle_alt. destruct (a ?= b)%Qc; split; congruence.
Qed.

Lemma Qc_ltb_ge (a b : Qc) : Qc_ltb a b = false <-> (b <= a)%Qc.
Proof.
  split; intros H.
  - apply Qcnot_lt_le. intros Hlt. apply Qc_ltb_lt in Hlt. congruence.
  - destruct (Qc_ltb a b) eqn:E; [| reflexivity].
    apply Qc_ltb_lt in E. exfalso. exact (Qcle_not_lt _ _ H E).
Qed.

Lemma ltb_leb (a b : number) : ltb a b = true -> leb a b = true.
Proof.
  destruct a, b; simpl; intros H; try reflexivity; try discriminate.
  apply Qc_leb_le, Qclt_le_weak, Qc_ltb_lt, H.
Qed.

Lemma ltb_false_leb (a b : number) :
  is_nan a = false -> is_nan b = false -> ltb a b = false -> leb b a = true.
Proof.
  destruct a, b; simpl; intros Ha Hb H; try reflexivity; try discriminate.
  apply Qc_leb_le, Qc_ltb_ge, H.
Qed.

Lemma leb_refl (a : number) : is_nan a = false -> leb a a = true.
Proof.
  destruct a; simpl; intros H; try reflexivity; try discriminate.
  apply Qc_leb_le, Qcle_refl.
Qed.

Lemma leb_trans (a b c : number) :
  leb a b = true -> leb b c = true -> leb a c = true.
Proof.
  destruct a, b, c; simpl; intros H1 H2; try reflexivity; try discriminate.
  apply Qc_leb_le. apply Qc_leb_le in H1, H2. exact (Qcle_trans _ _ _ H1 H2).
Qed.

Lemma leb_antisym (a b : number) : leb a b = true -> leb b a = true -> a = b.
Proof.
  destruct a, b; simpl; intros H1 H2; try reflexivity; try discriminate.
  f_equal. apply Qc_leb_le in H1, H2. now apply Qcle_antisym.
Qed.

Lemma ltb_leb_trans (a b c : number) :
  ltb a b = true -> leb b c = true -> ltb a c = true.
Proof.
  destruct a, b, c; simpl; intros H1 H2; try reflexivity; try discriminate.
  apply Qc_ltb_lt. apply Qc_ltb_lt in H1. apply Qc_leb_le in H2.
  exact (Qclt_le_trans _ _ _ H1 H2).
Qed.

Lemma leb_not_nan (a b : number) :
  leb a b = true -> is_nan a = false /\ is_nan b = false.
Proof. destruct a, b; simpl; intros H; split; try reflexivity; discriminate. Qed.

Lemma truthy_false (a : number) : truthy a = false -> a = NaN \/ a = zero.
Proof.
  destruct a as [| | q |]; simpl; intros H; try discriminate; [now left |].
  right. apply negb_false_iff, Qc_eq_bool_correct in H. now subst.
Qed.

(* ===================================================================== *)
(** ** Currency conversion                                               *)
(* ===================================================================== *)

Section CurrencyConversion.

Import App.

(** C2.  The conversion factor is 1 for the base currency BRL, whatever the
    rate table; 1 / rate[USD] for USD; and rate[currency] for ARS, PYG and
    UYU. *)
Theorem conversionFactor_three_cases (rates : Rates) :
  conversionFactor BRL rates = one
  /\ conversionFactor USD rates = div one (rUSD rates)
  /\ (forall c, c <> BRL -> c <> USD ->
                rate_of rates c = Some (conversionFactor c rates)).
Proof.
  split; [reflexivity |]. split; [reflexivity |].
  intros c Hbase Husd. destruct c; simpl; congruence.
Qed.

Lemma clampRate_eval (input : string) :
  clampRate input =
  let v := or_else (parseFloat input) zero in
  if ltb minRate v then v else minRate.
Proof.
  unfold clampRate, Math_max. cbv zeta.
  assert (Hv : is_nan (or_else (parseFloat input) zero) = false).
  { unfold or_else. destruct (truthy (parseFloat input)) eqn:E; [| reflexivity].
    destruct (parseFloat input); [discriminate | reflexivity ..]. }
  cbn [existsb fold_left]. rewrite Hv. reflexivity.
Qed.


End CurrencyConversion.

Lemma conversionFactor_three_cases_witness :
  App.conversionFactor BRL App.initialRates = one
  /\ App.conversionFactor USD App.initialRates = div one (num 5.75)
  /\ App.rate_of App.initialRates ARS = Some (App.conversionFactor ARS App.initialRates).
Proof.
  destruct (conversionFactor_three_cases App.initialRates) as [Hbase [Husd Hother]].
  split; [exact Hbase |]. split; [exact Husd |].
  apply Hother; discriminate.
Defined.

(* ===================================================================== *)
(** ** Aggregated metrics                                                *)
(* ===================================================================== *)

Section AggregatedMetrics.

Import App.

Lemma reduce_running (f : SaleRecord -> number) (data : list SaleRecord) (start : number) :
  reduce (fun sum item => add sum (f item)) start data = added_onto start (map f data).
Proof.
  unfold reduce. revert start.
  induction data as [| r data IH]; intros start; cbn [fold_left map added_onto];
    [reflexivity | apply IH].
Qed.

(** C5.  The totals are the running totals of the sales, the quantities
    and the profits of the records, taken from 0.  The average ticket is
    totalSales, that running total of the sales, divided by the number of
    records when there is at least one record (75 for two sales of 100 and
    50); on the empty set it is 0, not the quotient 0 / 0 (NaN), and the
    three totals are 0 as well. *)
Theorem avgTicket_defined (filteredData : list SaleRecord) :
  totalSales (metrics filteredData) = running_total (map sales filteredData)
  /\ totalQuantity (metrics filteredData) = running_total (map quantity filteredData)
  /\ totalProfit (metrics filteredData) = running_total (map profit filteredData)
  /\ (filteredData <> [] ->
      avgTicket (metrics filteredData)
      = div (totalSales (metrics filteredData)) (of_nat (List.length filteredData))
      /\ avgTicket (metrics filteredData)
         = div (running_total (map sales filteredData))
               (of_nat (List.length filteredData)))
  /\ (filteredData = [] ->
      avgTicket (metrics filteredData) = zero
      /\ avgTicket (metrics filteredData)
         <> div (totalSales (metrics filteredData)) (of_nat (List.length filteredData))
      /\ totalSales (metrics filteredData) = zero
      /\ totalQuantity (metrics filteredData) = zero
      /\ totalProfit (metrics filteredData) = zero).
Proof.
  pose proof (reduce_running sales filteredData zero) as Hs.
  pose proof (reduce_running quantity filteredData zero) as Hq.
  pose proof (reduce_running profit filteredData zero) as Hp.
  split; [exact Hs |]. split; [exact Hq |]. split; [exact Hp |]. split.
  - intros Hne. destruct filteredData as [| r rest]; [contradiction |].
    split; [reflexivity |]. cbn [avgTicket metrics List.length Nat.ltb Nat.leb].
    unfold running_total. now rewrite <- Hs.
  - intros ->. repeat split; try reflexivity.
    vm_compute. discriminate.
Qed.

End AggregatedMetrics.

Lemma avgTicket_defined_witness :
  App.avgTicket (App.metrics [sample_north; sample_south]) = of_Z 75
  /\ App.totalSales (App.metrics [sample_north; sample_south]) = of_Z 150
  /\ App.avgTicket (App.metrics []) = zero.
Proof.
  destruct (avgTicket_defined [sample_north; sample_south]) as [Htotal [_ [_ [Havg _]]]].
  destruct (avgTicket_defined []) as [_ [_ [_ [_ Hempty]]]].
  split; [| split].
  - rewrite (proj2 (Havg ltac:(discriminate))). number_eq.
  - rewrite Htotal. number_eq.
  - exact (proj1 (Hempty eq_refl)).
Defined.

(* ===================================================================== *)
(** ** Table view: sort state                                            *)
(* ===================================================================== *)

Section SortState.

Import DataGrid.

Lemma key_eqb_eq (a b : SaleKey) : key_eqb a b = true <-> a = b.
Proof. destruct a, b; simpl; split; intros H; try reflexivity; discriminate. Qed.

(** C8.  Selecting a column that is not the active sort key (or when no
    sort is active) sorts by it, descending for sales, profit, quantity and
    date and ascending for every other field; selecting the active key
    keeps the key and toggles the direction. *)
Theorem handleSort_policy (sortConfig : option SortConfig) (k : SaleKey) :
  (active_key sortConfig <> Some k ->
   handleSort sortConfig k = Some {| key := k; direction := default_direction k |})
  /\ (forall current, sortConfig = Some current -> key current = k ->
      handleSort sortConfig k
      = Some {| key := k; direction := toggled (direction current) |}).
Proof.
  split.
  - intros Hother. destruct sortConfig as [current |]; simpl in *.
    + destruct (key_eqb (key current) k) eqn:E.
      * apply key_eqb_eq in E. congruence.
      * unfold handleSort. rewrite E. destruct k; reflexivity.
    + destruct k; reflexivity.
  - intros current -> Hk. unfold handleSort.
    apply key_eqb_eq in Hk. rewrite Hk. destruct (direction current); reflexivity.
Qed.

End SortState.

Lemma handleSort_policy_witness :
  DataGrid.handleSort None DataGrid.Ksales
  = Some {| DataGrid.key := DataGrid.Ksales; DataGrid.direction := DataGrid.desc |}
  /\ DataGrid.handleSort
       (Some {| DataGrid.key := DataGrid.Ksales; DataGrid.direction := DataGrid.desc |})
       DataGrid.Kregion
     = Some {| DataGrid.key := DataGrid.Kregion; DataGrid.direction := DataGrid.asc |}
  /\ DataGrid.handleSort
       (Some {| DataGrid.key := DataGrid.Kregion; DataGrid.direction := DataGrid.asc |})
       DataGrid.Kregion
     = Some {| DataGrid.key := DataGrid.Kregion; DataGrid.direction := DataGrid.desc |}.
Proof.
  split; [| split].
  - apply (proj1 (handleSort_policy None DataGrid.Ksales)). discriminate.
  - apply (proj1 (handleSort_policy
                    (Some {| DataGrid.key := DataGrid.Ksales;
                             DataGrid.direction := DataGrid.desc |})
                    DataGrid.Kregion)).
    discriminate.
  - apply (proj2 (handleSort_policy
                    (Some {| DataGrid.key := DataGrid.Kregion;
                             DataGrid.direction := DataGrid.asc |})
                    DataGrid.Kregion)
                 {| DataGrid.key := DataGrid.Kregion; DataGrid.direction := DataGrid.asc |});
      reflexivity.
Defined.

(* ===================================================================== *)
(** ** Table view: what is shown and what is exported                    *)
(* ===================================================================== *)

Section TableAndExport.

Import DataGrid.

Variable h : Host.
Variable lang : Language.
Variable currency : Currency.
Variable factor : number.

Lemma firstn_short {A : Type} (n : nat) (l : list A) :
  (List.length l <= n)%nat -> firstn n l = l.
Proof.
  revert n. induction l as [| x l IH]; intros n Hn.
  - now destruct n.
  - destruct n as [| n]; simpl in *; [lia |]. f_equal. apply IH. lia.
Qed.

Lemma Forall2_map_left {A B : Type} (R : B -> A -> Prop) (f : A -> B) (l : list A) :
  (forall x, R (f x) x) -> Forall2 R (map f l) l.
Proof. intros H. induction l as [| x l IH]; cbn [map]; constructor; auto. Qed.

Lemma recordRows_dataRows (l : list SaleRecord) :
  recordRows (map (dataRow h lang currency factor) l)
  = map (dataRow h lang currency factor) l.
Proof.
  unfold recordRows. induction l as [| r l IH]; cbn [map filter dataRow]; [reflexivity |].
  f_equal. exact IH.
Qed.


End TableAndExport.



(* ===================================================================== *)
(** ** Table view: heatmap statistics                                    *)
(* ===================================================================== *)

Section Heatmap.

Import DataGrid.

Lemma fold_max_spec (l : list number) (acc : number) :
  existsb is_nan l = false -> is_nan acc = false ->
  let m := fold_left (fun highest n => if ltb highest n then n else highest) l acc in
  (m = acc \/ In m l) /\ leb acc m = true /\ Forall (fun x => leb x m = true) l.
Proof.
  revert acc. induction l as [| x l IH]; intros acc Hl Hacc; cbn [fold_left].
  - split; [now left |]. split; [now apply leb_refl | constructor].
  - cbn [existsb] in Hl. apply orb_false_iff in Hl. destruct Hl as [Hx Hl].
    set (acc' := if ltb acc x then x else acc).
    assert (Hacc' : is_nan acc' = false) by (unfold acc'; now destruct (ltb acc x)).
    assert (Hle : leb acc acc' = true /\ leb x acc' = true).
    { unfold acc'. destruct (ltb acc x) eqn:E.
      - split; [now apply ltb_leb | now apply leb_refl].
      - split; [now apply leb_refl | now apply ltb_false_leb]. }
    destruct (IH acc' Hl Hacc') as [Hin [Hge Hall]].
    split; [| split].
    + destruct Hin as [-> | Hin]; [| right; now right].
      unfold acc'. destruct (ltb acc x); [right; now left | now left].
    + exact (leb_trans _ _ _ (proj1 Hle) Hge).
    + constructor; [exact (leb_trans _ _ _ (proj2 Hle) Hge) | exact Hall].
Qed.

Lemma fold_min_spec (l : list number) (acc : number) :
  existsb is_nan l = false -> is_nan acc = false ->
  let m := fold_left (fun lowest n => if ltb n lowest then n else lowest) l acc in
  (m = acc \/ In m l) /\ leb m acc = true /\ Forall (fun x => leb m x = true) l.
Proof.
  revert acc. induction l as [| x l IH]; intros acc Hl Hacc; cbn [fold_left].
  - split; [now left |]. split; [now apply leb_refl | constructor].
  - cbn [existsb] in Hl. apply orb_false_iff in Hl. destruct Hl as [Hx Hl].
    set (acc' := if ltb x acc then x else acc).
    assert (Hacc' : is_nan acc' = false) by (unfold acc'; now destruct (ltb x acc)).
    assert (Hle : leb acc' acc = true /\ leb acc' x = true).
    { unfold acc'. destruct (ltb x acc) eqn:E.
      - split; [now apply ltb_leb | now apply leb_refl].
      - split; [now apply leb_refl | now apply ltb_false_leb]. }
    destruct (IH acc' Hl Hacc') as [Hin [Hge Hall]].
    split; [| split].
    + destruct Hin as [-> | Hin]; [| right; now right].
      unfold acc'. destruct (ltb x acc); [right; now left | now left].
    + exact (leb_trans _ _ _ Hge (proj1 Hle)).
    + constructor; [exact (leb_trans _ _ _ Hge (proj2 Hle)) | exact Hall].
Qed.

Lemma Math_max_greatest (l : list number) :
  existsb is_nan l = false -> l <> [] -> is_max_of (Math_max l) l.
Proof.
  intros Hl Hne. unfold Math_max. rewrite Hl.
  destruct (fold_max_spec l NegInf Hl eq_refl) as [Hin [_ Hall]].
  split; [| exact Hall].
  destruct Hin as [Hm | Hin]; [| exact Hin].
  rewrite Hm in *. destruct l as [| x l]; [contradiction |].
  left. inversion Hall as [| ? ? Hx _]; subst. now destruct x.
Qed.

Lemma Math_min_least (l : list number) :
  existsb is_nan l = false -> l <> [] -> is_min_of (Math_min l) l.
Proof.
  intros Hl Hne. unfold Math_min. rewrite Hl.
  destruct (fold_min_spec l PosInf Hl eq_refl) as [Hin [_ Hall]].
  split; [| exact Hall].
  destruct Hin as [Hm | Hin]; [| exact Hin].
  rewrite Hm in *. destruct l as [| x l]; [contradiction |].
  left. inversion Hall as [| ? ? Hx _]; subst. now destruct x.
Qed.

Lemma no_nan_with_zero {A : Type} (f : A -> number) (l : list A) :
  Forall (fun r => is_nan (f r) = false) l ->
  existsb is_nan (map f l ++ [zero]) = false.
Proof.
  induction 1 as [| r l Hr _ IH]; [reflexivity |].
  cbn [map app existsb]. now rewrite Hr, IH.
Qed.

Lemma with_zero_nonempty {A : Type} (f : A -> number) (l : list A) :
  map f l ++ [zero] <> [].
Proof. destruct l; discriminate. Qed.

Lemma max_without_zero (m : number) (l : list number) :
  is_max_of m (l ++ [zero]) ->
  Exists (fun x => leb zero x = true) l -> is_max_of m l.
Proof.
  intros [Hin Hall] Hex. apply Forall_app in Hall. destruct Hall as [Hall Hzero].
  split; [| exact Hall].
  apply in_app_or in Hin. destruct Hin as [Hin | [<- | []]]; [exact Hin |].
  apply Exists_exists in Hex. destruct Hex as [x [Hx Hle]].
  rewrite Forall_forall in Hall.
  now rewrite (leb_antisym _ _ Hle (Hall x Hx)).
Qed.

Lemma min_without_zero (m : number) (l : list number) :
  is_min_of m (l ++ [zero]) ->
  Exists (fun x => leb x zero = true) l -> is_min_of m l.
Proof.
  intros [Hin Hall] Hex. apply Forall_app in Hall. destruct Hall as [Hall Hzero].
  split; [| exact Hall].
  apply in_app_or in Hin. destruct Hin as [Hin | [<- | []]]; [exact Hin |].
  apply Exists_exists in Hex. destruct Hex as [x [Hx Hle]].
  rewrite Forall_forall in Hall.
  now rewrite (leb_antisym _ _ (Hall x Hx) Hle).
Qed.

(** C7, as the code has it.  Each statistic is taken over the values of the
    visible records together with 0: [maxSales] is the greatest of the
    sales values and 0, [minSales] the least of the sales values and 0,
    [maxProfit] the greatest of the profit values and 0 (no value being
    NaN).  Hence a maximum is the maximum of the records' values as soon as
    one of them is not negative, and [minSales] is the minimum of the
    records' sales values as soon as one of them is not positive. *)
Theorem heatmap_stats_include_zero (sortedData : list SaleRecord) :
  Forall (fun r => is_nan (sales r) = false) sortedData ->
  Forall (fun r => is_nan (profit r) = false) sortedData ->
  (is_max_of (maxSales sortedData) (map sales sortedData ++ [zero])
   /\ is_min_of (minSales sortedData) (map sales sortedData ++ [zero])
   /\ is_max_of (maxProfit sortedData) (map profit sortedData ++ [zero]))
  /\ (Exists (fun x => leb zero x = true) (map sales sortedData) ->
      is_max_of (maxSales sortedData) (map sales sortedData))
  /\ (Exists (fun x => leb x zero = true) (map sales sortedData) ->
      is_min_of (minSales sortedData) (map sales sortedData))
  /\ (Exists (fun x => leb zero x = true) (map profit sortedData) ->
      is_max_of (maxProfit sortedData) (map profit sortedData)).
Proof.
  intros Hs Hp.
  assert (H1 : is_max_of (maxSales sortedData) (map sales sortedData ++ [zero])).
  { apply Math_max_greatest; [now apply no_nan_with_zero | apply with_zero_nonempty]. }
  assert (H2 : is_min_of (minSales sortedData) (map sales sortedData ++ [zero])).
  { apply Math_min_least; [now apply no_nan_with_zero | apply with_zero_nonempty]. }
  assert (H3 : is_max_of (maxProfit sortedData) (map profit sortedData ++ [zero])).
  { apply Math_max_greatest; [now apply no_nan_with_zero | apply with_zero_nonempty]. }
  split; [exact (conj H1 (conj H2 H3)) |]. split; [| split].
  - now apply max_without_zero.
  - now apply min_without_zero.
  - now apply max_without_zero.
Qed.

End Heatmap.

Lemma heatmap_stats_include_zero_witness :
  is_max_of (DataGrid.maxSales [sample_north; sample_south]) [of_Z 100; of_Z 50; zero]
  /\ is_min_of (DataGrid.minSales [sample_north; sample_south]) [of_Z 100; of_Z 50; zero]
  /\ is_max_of (DataGrid.maxProfit [sample_north; sample_south]) [of_Z 10; of_Z 5; zero].
Proof.
  apply (heatmap_stats_include_zero [sample_north; sample_south]);
    repeat constructor.
Defined.

(** C7 as stated fails: with sales of 100 and 50 on screen, [minSales] is 0,
    which is not the minimum of the records' sales values (it is not even
    one of them). *)
Lemma minSales_is_not_the_minimum :
  DataGrid.minSales [sample_north; sample_south] = zero
  /\ ~ is_min_of (DataGrid.minSales [sample_north; sample_south])
                 (map sales [sample_north; sample_south]).
Proof.
  assert (Hmin : DataGrid.minSales [sample_north; sample_south] = zero) by number_eq.
  split; [exact Hmin |].
  rewrite Hmin. intros [Hin _]. simpl in Hin.
  destruct Hin as [H | [H | []]];
    apply (f_equal (fun n => JS.eqb n zero)) in H; vm_compute in H; discriminate.
Qed.

(* ===================================================================== *)
(** ** Sums of numbers                                                   *)
(* ===================================================================== *)

Lemma add_comm (a b : number) : add a b = add b a.
Proof. destruct a, b; simpl; try reflexivity. f_equal. apply Qcplus_comm. Qed.

Lemma add_assoc (a b c : number) : add a (add b c) = add (add a b) c.
Proof. destruct a, b, c; simpl; try reflexivity. f_equal. apply Qcplus_assoc. Qed.

Lemma add_zero_l (a : number) : add zero a = a.
Proof. destruct a; simpl; try reflexivity. f_equal. apply Qcplus_0_l. Qed.

Lemma add_zero_r (a : number) : add a zero = a.
Proof. rewrite add_comm. apply add_zero_l. Qed.

Lemma sum_of_app (l1 l2 : list number) :
  sum_of (l1 ++ l2) = add (sum_of l1) (sum_of l2).
Proof.
  induction l1 as [| x l1 IH]; simpl.
  - symmetry. apply add_zero_l.
  - fold (sum_of (l1 ++ l2)) (sum_of l1). rewrite IH. apply add_assoc.
Qed.

Lemma sum_of_perm (l1 l2 : list number) :
  Permutation l1 l2 -> sum_of l1 = sum_of l2.
Proof.
  induction 1 as [| x l1 l2 _ IH | x y l | l1 l2 l3 _ IH1 _ IH2]; simpl.
  - reflexivity.
  - fold (sum_of l1) (sum_of l2). now rewrite IH.
  - fold (sum_of l). rewrite !add_assoc. f_equal. apply add_comm.
  - congruence.
Qed.

Lemma reduce_add_sum {A : Type} (f : A -> number) (l : list A) (acc : number) :
  reduce (fun sum item => add sum (f item)) acc l = add acc (sum_of (map f l)).
Proof.
  unfold reduce. revert acc. induction l as [| x l IH]; intros acc; simpl.
  - symmetry. apply add_zero_r.
  - rewrite IH. fold (sum_of (map f l)). symmetry. apply add_assoc.
Qed.

Lemma sum_of_finite (l : list number) :
  Forall (fun x => is_finite x = true) l -> exists q, sum_of l = Fin q.
Proof.
  induction 1 as [| x l Hx _ [q IH]]; simpl.
  - now exists (Q2Qc (inject_Z 0)).
  - fold (sum_of l). rewrite IH. destruct x as [| | p |]; try discriminate.
    now exists (p + q)%Qc.
Qed.

Lemma mul_sum_distr (f : Qc) (l : list number) :
  Forall (fun x => is_finite x = true) l ->
  mul (sum_of l) (Fin f) = sum_of (map (fun x => mul x (Fin f)) l).
Proof.
  induction 1 as [| x l Hx Hl IH]; simpl.
  - unfold zero, of_Z, num. f_equal. apply Qcmult_0_l.
  - fold (sum_of l) (sum_of (map (fun x => mul x (Fin f)) l)). rewrite <- IH.
    destruct (sum_of_finite l Hl) as [q ->].
    destruct x as [| | p |]; try discriminate. simpl. f_equal.
    apply Qcmult_plus_distr_l.
Qed.

Lemma mul_one_r (q : Qc) : mul (Fin q) one = Fin q.
Proof. simpl. f_equal. apply Qcmult_1_r. Qed.

(* ===================================================================== *)
(** ** Sorting and enumeration are rearrangements                        *)
(* ===================================================================== *)

Lemma sort_insert_perm {A : Type} (cmp : A -> A -> number) (x : A) (l : list A) :
  Permutation (sort_insert cmp x l) (x :: l).
Proof.
  induction l as [| y l IH]; cbn [sort_insert]; [reflexivity |].
  destruct (ltb zero (cmp x y)); [| reflexivity].
  rewrite IH. apply perm_swap.
Qed.

Lemma sort_perm {A : Type} (cmp : A -> A -> number) (l : list A) :
  Permutation (sort cmp l) l.
Proof.
  unfold sort. induction l as [| x l IH]; cbn [fold_right]; [reflexivity |].
  rewrite sort_insert_perm. now constructor.
Qed.

Lemma insert_index_perm (e : N * (string * value)) (l : list (N * (string * value))) :
  Permutation (insert_index e l) (e :: l).
Proof.
  induction l as [| e' l IH]; cbn [insert_index]; [reflexivity |].
  destruct (fst e' <? fst e)%N; [| reflexivity].
  rewrite IH. apply perm_swap.
Qed.

Lemma index_entries_perm (o : object) :
  Permutation (map snd (index_entries o)) (filter is_index_key o).
Proof.
  induction o as [| [k v] o IH]; simpl; [reflexivity |].
  unfold is_index_key at 1. simpl. destruct (array_index k) as [n |]; [| exact IH].
  rewrite insert_index_perm. simpl. now constructor.
Qed.

Lemma filter_split_perm {A : Type} (p : A -> bool) (l : list A) :
  Permutation (filter p l ++ filter (fun x => negb (p x)) l) l.
Proof.
  induction l as [| x l IH]; simpl; [reflexivity |].
  destruct (p x); simpl.
  - now constructor.
  - rewrite <- Permutation_middle. now constructor.
Qed.

Lemma entries_perm (o : object) : Permutation (entries o) o.
Proof.
  unfold entries. rewrite index_entries_perm. apply filter_split_perm.
Qed.

(** With finite keys, sorting by [b - a] leaves the keys in descending
    order. *)
Section SortDescending.

Variable A : Type.
Variable weight : A -> number.

Let cmp (a b : A) : number := sub (weight b) (weight a).
Let above (a b : A) : Prop := leb (weight b) (weight a) = true.

Lemma cmp_positive (x y : A) :
  is_finite (weight x) = true -> is_finite (weight y) = true ->
  if ltb zero (cmp x y) then above y x else above x y.
Proof.
  unfold cmp, above. destruct (weight x) as [| | a |], (weight y) as [| | b |];
    try discriminate. intros _ _. simpl.
  destruct (Qc_ltb (Q2Qc (inject_Z 0)) (b + - a)) eqn:E.
  - apply Qc_ltb_lt in E. apply Qc_leb_le, Qclt_le_weak, Qclt_minus_iff, E.
  - apply Qc_leb_le, Qcnot_lt_le. intros Hlt.
    apply Qclt_minus_iff in Hlt. apply Qc_ltb_lt in Hlt.
    exact (eq_true_false_abs _ Hlt E).
Qed.

Lemma sort_insert_sorted (x : A) (l : list A) :
  is_finite (weight x) = true ->
  Forall (fun y => is_finite (weight y) = true) l ->
  StronglySorted above l -> StronglySorted above (sort_insert cmp x l).
Proof.
  intros Hx Hfin Hsorted. induction Hsorted as [| y l Hl IH Hy]; cbn [sort_insert].
  - repeat constructor.
  - inversion Hfin as [| ? ? Hfy Hfl]; subst.
    pose proof (cmp_positive x y Hx Hfy) as Hcmp.
    destruct (ltb zero (cmp x y)).
    + constructor; [now apply IH |].
      apply (Permutation_Forall (x := x :: l)); [| now constructor].
      symmetry. apply sort_insert_perm.
    + constructor; [now constructor |].
      constructor; [exact Hcmp |].
      apply Forall_impl with (2 := Hy). intros z Hz. unfold above in *.
      exact (leb_trans _ _ _ Hz Hcmp).
Qed.

Lemma sort_descending (l : list A) :
  Forall (fun y => is_finite (weight y) = true) l ->
  StronglySorted above (sort cmp l).
Proof.
  unfold sort. induction 1 as [| x l Hx Hl IH]; cbn [fold_right]; [constructor |].
  apply sort_insert_sorted; [exact Hx | | exact IH].
  apply (Permutation_Forall (x := l)); [| exact Hl].
  symmetry. apply (sort_perm cmp l).
Qed.

End SortDescending.

(* ===================================================================== *)
(** ** Sales by category                                                 *)
(* ===================================================================== *)

Section SalesByCategory.

Import App ChartsSection.

Lemma or_else_fin (q : Qc) : or_else (Fin q) zero = Fin q.
Proof.
  unfold or_else. destruct (truthy (Fin q)) eqn:E; [reflexivity |].
  destruct (truthy_false _ E) as [H | H]; [discriminate | now symmetry].
Qed.

Lemma not_proto_key (k : string) :
  proto_member k = false -> String.eqb k "__proto__" = false.
Proof.
  unfold proto_member, includes, proto_members. cbn [existsb]. intros H.
  apply orb_false_iff in H. destruct H as [_ H].
  apply orb_false_iff in H. exact (proj1 H).
Qed.

Lemma own_fin_valued (o : object) (k : string) (v : JS.value) :
  fin_valued o -> own o k = Some v -> exists q, v = VNum (Fin q).
Proof.
  induction 1 as [| [k' v'] o Hv _ IH]; simpl; [discriminate |].
  destruct (String.eqb k k'); [| exact IH].
  intros Heq. injection Heq as <-. exact Hv.
Qed.

Lemma replace_own_fin_valued (o : object) (k : string) (q : Qc) :
  fin_valued o -> fin_valued (replace_own o k (VNum (Fin q))).
Proof.
  induction 1 as [| [k' v'] o Hv Ho IH]; simpl; [constructor |].
  destruct (String.eqb k k'); constructor; try assumption.
  now exists q.
Qed.

Lemma scaled_sum_replace (f q qs : Qc) (o : object) (k : string) :
  own o k = Some (VNum (Fin q)) ->
  scaled_sum (Fin f) (replace_own o k (VNum (Fin (q + qs))))
  = add (scaled_sum (Fin f) o) (mul (Fin qs) (Fin f)).
Proof.
  unfold scaled_sum. induction o as [| [k' v'] o IH]; simpl; [discriminate |].
  destruct (String.eqb k k'); simpl.
  - intros Heq. injection Heq as ->.
    fold (sum_of (map (fun e => value_times (snd e) (Fin f)) o)).
    set (rest := sum_of _). simpl.
    rewrite Qcmult_plus_distr_l.
    change (add (add (Fin (q * f)) (Fin (qs * f))) rest
            = add (add (Fin (q * f)) rest) (Fin (qs * f))).
    rewrite <- !add_assoc. f_equal. apply add_comm.
  - intros Hown. fold (sum_of (map (fun e => value_times (snd e) (Fin f)) o)).
    fold (sum_of (map (fun e => value_times (snd e) (Fin f)) (replace_own o k (VNum (Fin (q + qs)))))).
    rewrite (IH Hown). apply add_assoc.
Qed.

Lemma group_step (f qs : Qc) (o : object) (r : SaleRecord) :
  fin_valued o -> sales r = Fin qs -> proto_member (category r) = false ->
  let o' := set o (category r)
                (value_plus (value_or_zero (get o (category r))) (sales r)) in
  fin_valued o'
  /\ scaled_sum (Fin f) o' = add (scaled_sum (Fin f) o) (mul (sales r) (Fin f)).
Proof.
  intros Ho Hs Hk. cbv zeta. unfold set, get.
  rewrite (not_proto_key _ Hk), Hk, Hs.
  destruct (own o (category r)) as [v |] eqn:Hown.
  - destruct (own_fin_valued _ _ _ Ho Hown) as [q ->].
    cbn [value_or_zero value_plus]. rewrite or_else_fin. cbn [add].
    split; [now apply replace_own_fin_valued | now apply scaled_sum_replace].
  - cbn [value_or_zero value_plus]. rewrite add_zero_l. split.
    + apply Forall_app. split; [exact Ho |]. constructor; [now exists qs | constructor].
    + unfold scaled_sum. rewrite map_app, sum_of_app. f_equal.
      cbn [map sum_of fold_right snd value_times]. apply add_zero_r.
Qed.

Lemma grouped_from (f : Qc) (data : list SaleRecord) (acc : object) :
  fin_valued acc ->
  Forall (fun r => is_finite (sales r) = true) data ->
  Forall (fun r => proto_member (category r) = false) data ->
  let o := reduce (fun acc curr =>
                     set acc (category curr)
                         (value_plus (value_or_zero (get acc (category curr))) (sales curr)))
                  acc data in
  fin_valued o
  /\ scaled_sum (Fin f) o
     = add (scaled_sum (Fin f) acc)
           (sum_of (map (fun s => mul s (Fin f)) (map sales data))).
Proof.
  unfold reduce. intros Hacc Hfin. revert acc Hacc.
  induction Hfin as [| r data Hr _ IH]; intros acc Hacc Hkeys; cbn [fold_left map].
  - split; [exact Hacc |]. simpl. now rewrite add_zero_r.
  - inversion Hkeys as [| ? ? Hk Hks]; subst.
    destruct (sales r) as [| | qs |] eqn:Hs; try discriminate.
    destruct (group_step f qs acc r Hacc Hs Hk) as [Hfv Hsum].
    rewrite Hs in Hfv, Hsum.
    destruct (IH _ Hfv Hks) as [Ho Heq].
    split; [exact Ho |].
    rewrite Heq, Hsum. cbn [sum_of fold_right].
    fold (sum_of (map (fun s => mul s (Fin f)) (map sales data))).
    symmetry. apply add_assoc.
Qed.

Lemma entry_values_finite (f : Qc) (o : object) :
  fin_valued o ->
  Forall (fun e : string * JS.value => is_finite (value_times (snd e) (Fin f)) = true) o.
Proof.
  intros Ho. apply Forall_impl with (2 := Ho). intros e [q ->]. reflexivity.
Qed.

End SalesByCategory.

(** Why the category names must be ordinary: a category called
    [constructor] reads the member every object inherits, the chart value
    of that category is NaN even at factor 1, and so is the sum. *)
Lemma inherited_name_poisons_group :
  map ChartsSection.value
      (ChartsSection.categoryData (DataGrid.getDataTranslation sample_host)
                                  [sold_as "constructor"] pt one)
  = [NaN]
  /\ App.totalSales (App.metrics [sold_as "constructor"]) = of_Z 100.
Proof. split; [reflexivity | number_eq]. Qed.

(* ===================================================================== *)
(** ** Table view: date range                                            *)
(* ===================================================================== *)

Section DateRange.

Import DataGrid.

Lemma of_Z_compare (a b : Z) :
  (Q2Qc (inject_Z a) ?= Q2Qc (inject_Z b))%Qc = (a ?= b)%Z.
Proof.
  unfold Qccompare, Q2Qc. cbn [this]. rewrite <- Qred_compare.
  unfold Qcompare, inject_Z. cbn [Qnum Qden]. now rewrite !Z.mul_1_r.
Qed.

Lemma leb_of_Z (a b : Z) : leb (of_Z a) (of_Z b) = (a <=? b)%Z.
Proof.
  unfold of_Z, num. cbn [leb]. unfold Qc_leb. rewrite of_Z_compare.
  unfold Z.leb. now destruct (a ?= b)%Z.
Qed.

Lemma nonempty_false (s : string) : nonempty s = false <-> s = EmptyString.
Proof. destruct s; simpl; split; intros H; try reflexivity; discriminate. Qed.

Lemma civil_day_nonempty (s : string) (day : Z) :
  Date.civil_day s = Some day -> nonempty s = true.
Proof. destruct s; [discriminate | reflexivity]. Qed.

End DateRange.

(** At UTC, with 15 January 2024 as both bounds: the records dated at
    00:00:00.000 and at 23:59:59.999 of that day are kept, those dated one
    millisecond before and one millisecond after are dropped. *)
Lemma date_range_bounds_at_utc :
  DataGrid.filteredByDateData
    0 [dated 1705276799999; dated 1705276800000;
       dated 1705363199999; dated 1705363200000]
    "2024-01-15" "2024-01-15"
  = [dated 1705276800000; dated 1705363199999].
Proof. vm_compute. reflexivity. Qed.

(** C4 on a host three hours behind UTC, with 15 January 2024 as both
    bounds.  The record dated 15 January at noon, local time, lies in the
    selected range and the one dated 14 January at noon does not; the
    filter keeps the second and drops the first, because the date-only
    string is read as midnight UTC, which is still 14 January on that
    host. *)
Theorem date_range_west_of_utc_is_the_day_before :
  in_date_range utc_minus_3 "2024-01-15" "2024-01-15" (date sample_north)
  /\ ~ in_date_range utc_minus_3 "2024-01-15" "2024-01-15" (date sample_south)
  /\ DataGrid.filteredByDateData utc_minus_3 [sample_north; sample_south]
                                 "2024-01-15" "2024-01-15"
     = [sample_south]
  /\ Date.setHours utc_minus_3 (Date.parse "2024-01-15") 0 0 0 0
     = local_day_start utc_minus_3 "2024-01-14".
Proof.
  split; [| split; [| split]].
  - split; right; eexists; (split; [vm_compute; reflexivity | vm_compute; discriminate]).
  - intros [[H | [t [Ht Hle]]] _]; [discriminate |].
    vm_compute in Ht. injection Ht as <-. vm_compute in Hle. now apply Hle.
  - vm_compute. reflexivity.
  - vm_compute. reflexivity.
Qed.

(* ===================================================================== *)
(** ** Sorting with a comparator                                         *)
(* ===================================================================== *)

Section SortWithComparator.

Variable A : Type.
Variable cmp : A -> A -> number.

(** Elements that the comparator ties keep their relative order. *)
Lemma sort_insert_stable (p : A -> bool) (x : A) (l : list A) :
  (forall y, In y l -> p x = true -> p y = true -> ltb zero (cmp x y) = false) ->
  filter p (sort_insert cmp x l) = filter p (x :: l).
Proof.
  induction l as [| y l IH]; intros Htie; cbn [sort_insert]; [reflexivity |].
  destruct (ltb zero (cmp x y)) eqn:E; [| reflexivity].
  cbn [filter]. rewrite IH by (intros z Hz; apply Htie; now right).
  cbn [filter]. destruct (p x) eqn:Hx, (p y) eqn:Hy; try reflexivity.
  rewrite (Htie y (or_introl eq_refl) eq_refl Hy) in E. discriminate.
Qed.

Lemma sort_stable (p : A -> bool) (l : list A) :
  (forall x y, p x = true -> p y = true -> ltb zero (cmp x y) = false) ->
  filter p (sort cmp l) = filter p l.
Proof.
  intros Htie. unfold sort. induction l as [| x l IH]; cbn [fold_right]; [reflexivity |].
  rewrite sort_insert_stable by (intros y _; apply Htie).
  cbn [filter]. now rewrite IH.
Qed.

Variable R : A -> A -> Prop.
Variable P : A -> Prop.

Hypothesis R_trans : forall x y z, R x y -> R y z -> R x z.
Hypothesis cmp_R :
  forall x y, P x -> P y -> if ltb zero (cmp x y) then R y x else R x y.

Lemma sort_insert_ordered (x : A) (l : list A) :
  P x -> Forall P l -> StronglySorted R l -> StronglySorted R (sort_insert cmp x l).
Proof.
  intros Hx HP Hsorted. induction Hsorted as [| y l Hl IH Hy]; cbn [sort_insert].
  - repeat constructor.
  - inversion HP as [| ? ? HPy HPl]; subst.
    pose proof (cmp_R x y Hx HPy) as Hxy.
    destruct (ltb zero (cmp x y)).
    + constructor; [now apply IH |].
      apply (Permutation_Forall (x := x :: l)); [| now constructor].
      symmetry. apply sort_insert_perm.
    + constructor; [now constructor |].
      constructor; [exact Hxy |].
      apply Forall_impl with (2 := Hy). intros z Hz. exact (R_trans _ _ _ Hxy Hz).
Qed.

Lemma sort_ordered (l : list A) : Forall P l -> StronglySorted R (sort cmp l).
Proof.
  unfold sort. induction 1 as [| x l Hx Hl IH]; cbn [fold_right]; [constructor |].
  apply sort_insert_ordered; [exact Hx | | exact IH].
  apply (Permutation_Forall (x := l)); [| exact Hl].
  symmetry. apply (sort_perm cmp l).
Qed.

End SortWithComparator.

Lemma StronglySorted_app {A : Type} (R : A -> A -> Prop) (l1 l2 : list A) :
  StronglySorted R l1 -> StronglySorted R l2 ->
  (forall x y, In x l1 -> In y l2 -> R x y) ->
  StronglySorted R (l1 ++ l2).
Proof.
  intros H1 H2 Hcross. induction H1 as [| x l1 Hl1 IH Hx]; [exact H2 |].
  cbn [app]. constructor.
  - apply IH. intros a b Ha Hb. apply Hcross; [now right | exact Hb].
  - apply Forall_app. split; [exact Hx |].
    apply Forall_forall. intros y Hy. apply Hcross; [now left | exact Hy].
Qed.

Lemma StronglySorted_rev {A : Type} (R : A -> A -> Prop) (l : list A) :
  StronglySorted R l -> StronglySorted (fun a b => R b a) (rev l).
Proof.
  induction 1 as [| x l Hl IH Hx]; cbn [rev]; [constructor |].
  apply StronglySorted_app; [exact IH | repeat constructor |].
  intros a b Ha [<- | []]. rewrite Forall_forall in Hx. apply Hx. now apply in_rev.
Qed.

(** Two sorted arrangements of the same elements are the same list, when
    no two distinct elements are tied. *)
Lemma sorted_arrangement_unique {A : Type} (R : A -> A -> Prop) (l1 l2 : list A) :
  StronglySorted R l1 -> StronglySorted R l2 -> Permutation l1 l2 ->
  (forall x y, In x l1 -> In y l1 -> R x y -> R y x -> x = y) ->
  l1 = l2.
Proof.
  intros H1. revert l2. induction H1 as [| a l1 Hl1 IH Ha]; intros l2 H2 Hperm Hanti.
  - apply Permutation_nil in Hperm. now subst.
  - destruct H2 as [| b l2 Hl2 Hb].
    + apply Permutation_sym, Permutation_nil in Hperm. discriminate.
    + assert (Hab : a = b).
      { assert (Hain : In a (b :: l2))
          by (apply (Permutation_in _ Hperm); now left).
        assert (Hbin : In b (a :: l1))
          by (apply (Permutation_in _ (Permutation_sym Hperm)); now left).
        destruct Hain as [-> | Hain]; [reflexivity |].
        destruct Hbin as [-> | Hbin]; [reflexivity |].
        rewrite Forall_forall in Ha, Hb.
        apply Hanti; [now left | now right | now apply Ha | now apply Hb]. }
      subst b. f_equal. apply IH; [exact Hl2 | |].
      * exact (Permutation_cons_inv Hperm).
      * intros x y Hx Hy. apply Hanti; now right.
Qed.

Lemma NoDup_map_injective {A B : Type} (f : A -> B) (l : list A) (x y : A) :
  NoDup (map f l) -> In x l -> In y l -> f x = f y -> x = y.
Proof.
  induction l as [| a l IH]; cbn [map]; intros Hnd Hx Hy Heq; [contradiction |].
  inversion Hnd as [| ? ? Hnot Hrest]; subst.
  destruct Hx as [-> | Hx], Hy as [-> | Hy]; try reflexivity.
  - exfalso. apply Hnot. rewrite Heq. now apply in_map.
  - exfalso. apply Hnot. rewrite <- Heq. now apply in_map.
  - now apply IH.
Qed.

(* ===================================================================== *)
(** ** Records arrive in date order                                      *)
(* ===================================================================== *)

Section RecordsByDate.

Import DataService.

Lemma ltb_zero_sub_of_Z (a b : Z) :
  ltb zero (sub (of_Z a) (of_Z b)) = (b <? a)%Z.
Proof.
  unfold of_Z, num. cbn [sub neg add ltb zero of_Z num].
  destruct (b <? a)%Z eqn:E.
  - apply Qc_ltb_lt.
    apply (proj1 (Qclt_minus_iff (Q2Qc (inject_Z b)) (Q2Qc (inject_Z a)))).
    apply Qclt_alt. rewrite of_Z_compare. apply Z.compare_lt_iff. now apply Z.ltb_lt.
  - apply Z.ltb_ge in E.
    destruct (Qc_ltb (Q2Qc (inject_Z 0)) (Q2Qc (inject_Z a) + - Q2Qc (inject_Z b))) eqn:L;
      [| reflexivity].
    apply Qc_ltb_lt in L.
    apply (proj2 (Qclt_minus_iff (Q2Qc (inject_Z b)) (Q2Qc (inject_Z a)))) in L.
    apply (proj1 (Qclt_alt _ _)) in L. rewrite of_Z_compare in L.
    apply (proj1 (Z.compare_lt_iff _ _)) in L. lia.
Qed.

(** The record list that [generateMockData] and [parseUploadedFile] hand
    over is the list they built, rearranged in ascending date order, the
    records of one same instant staying in the order they were built. *)
Theorem sortByDate_ascending_stable (data : list SaleRecord) :
  Permutation (sortByDate data) data
  /\ StronglySorted (fun a b => (date a <= date b)%Z) (sortByDate data)
  /\ (forall t, filter (fun r => (date r =? t)%Z) (sortByDate data)
                = filter (fun r => (date r =? t)%Z) data).
Proof.
  unfold sortByDate. split; [apply sort_perm |]. split.
  - apply (sort_ordered SaleRecord byDate (fun a b => (date a <= date b)%Z)
                        (fun _ => True)).
    + intros x y z. lia.
    + intros x y _ _. unfold byDate. rewrite ltb_zero_sub_of_Z.
      destruct (date y <? date x)%Z eqn:E.
      * apply Z.ltb_lt in E. lia.
      * apply Z.ltb_ge in E. exact E.
    + apply Forall_forall. intros; exact I.
  - intros t. apply sort_stable. intros x y Hx Hy.
    apply Z.eqb_eq in Hx, Hy. unfold byDate. rewrite ltb_zero_sub_of_Z.
    apply Z.ltb_ge. lia.
Qed.

End RecordsByDate.

(* ===================================================================== *)
(** ** Table view: the sort                                              *)
(* ===================================================================== *)

Section TableSort.

Import DataGrid.

Variable h : Host.
Variable lang : Language.

Lemma string_ltb_leb (a b : string) : String.ltb a b = true -> String.leb a b = true.
Proof. unfold String.ltb, String.leb. now destruct (String.compare a b). Qed.

Lemma string_ltb_false_leb (a b : string) :
  String.ltb a b = false -> String.leb b a = true.
Proof.
  unfold String.ltb, String.leb. rewrite (String.compare_antisym a b).
  now destruct (String.compare b a).
Qed.

Lemma string_ltb_irrefl (a : string) : String.ltb a a = false.
Proof.
  unfold String.ltb.
  assert (H : String.compare a a = Eq) by now apply String_as_OT.cmp_eq.
  now rewrite H.
Qed.

Lemma string_leb_trans (a b c : string) :
  String.leb a b = true -> String.leb b c = true -> String.leb a c = true.
Proof.
  unfold String.leb. intros Hab Hbc.
  destruct (String.compare a b) eqn:E1; try discriminate.
  - apply String_as_OT.cmp_eq in E1. now subst.
  - destruct (String.compare b c) eqn:E2; try discriminate.
    + apply String_as_OT.cmp_eq in E2. subst. now rewrite E1.
    + apply String_as_OT.cmp_lt in E1, E2.
      pose proof (String_as_OT.lt_trans _ _ _ E1 E2) as Hlt.
      apply String_as_OT.cmp_lt in Hlt. unfold String_as_OT.cmp in Hlt.
      now rewrite Hlt.
Qed.

Lemma value_le_trans (a b c : SortValue) :
  value_le a b -> value_le b c -> value_le a c.
Proof.
  destruct a, b, c; cbn; try contradiction.
  - apply leb_trans.
  - apply string_leb_trans.
Qed.

Lemma value_le_antisym (a b : SortValue) : value_le a b -> value_le b a -> a = b.
Proof.
  destruct a, b; cbn; try contradiction; intros H1 H2; f_equal.
  - now apply leb_antisym.
  - now apply String.leb_antisym.
Qed.

Lemma value_lt_le (a b : SortValue) : value_lt a b = true -> value_le a b.
Proof.
  destruct a, b; cbn; try discriminate.
  - apply ltb_leb.
  - apply string_ltb_leb.
Qed.

Lemma ltb_irrefl (n : number) : ltb n n = false.
Proof.
  destruct n as [| | q |]; try reflexivity. cbn.
  destruct (Qc_ltb q q) eqn:E; [| reflexivity].
  apply Qc_ltb_lt in E. exfalso. exact (Qclt_not_eq _ _ E eq_refl).
Qed.

Lemma value_lt_irrefl (a : SortValue) : value_lt a a = false.
Proof. destruct a; cbn; [apply ltb_irrefl | apply string_ltb_irrefl]. Qed.

Lemma sort_value_eqb_eq (a b : SortValue) : sort_value_eqb a b = true -> a = b.
Proof.
  destruct a, b; cbn; try discriminate; intros H; f_equal.
  - now apply eqb_eq.
  - now apply String.eqb_eq.
Qed.

(** Two values of one column are of one kind. *)
Lemma value_not_lt_le (k : SaleKey) (x y : SaleRecord) :
  comparable (sortValue h lang k x) -> comparable (sortValue h lang k y) ->
  value_lt (sortValue h lang k y) (sortValue h lang k x) = false ->
  value_le (sortValue h lang k x) (sortValue h lang k y).
Proof.
  destruct k; cbn [sortValue value_lt value_le comparable]; intros Hx Hy H;
    first [now apply string_ltb_false_leb | now apply ltb_false_leb].
Qed.

Lemma compareRows_order (config : SortConfig) (x y : SaleRecord) :
  comparable (sortValue h lang (key config) x) ->
  comparable (sortValue h lang (key config) y) ->
  if ltb zero (compareRows h lang config x y)
  then in_order (direction config) (sortValue h lang (key config) y)
                (sortValue h lang (key config) x)
  else in_order (direction config) (sortValue h lang (key config) x)
                (sortValue h lang (key config) y).
Proof.
  intros Hx Hy. unfold compareRows. cbv zeta.
  destruct (value_lt (sortValue h lang (key config) x)
                     (sortValue h lang (key config) y)) eqn:Hxy.
  - apply value_lt_le in Hxy. destruct (direction config); exact Hxy.
  - destruct (value_lt (sortValue h lang (key config) y)
                       (sortValue h lang (key config) x)) eqn:Hyx.
    + apply value_lt_le in Hyx. destruct (direction config); exact Hyx.
    + change (ltb zero zero) with false. cbv iota.
      destruct (direction config); cbn [in_order]; now apply value_not_lt_le.
Qed.

(** The table sort rearranges the rows and drops none; with no sort
    chosen the rows stay as they are; and, no value of the sorted column
    being NaN, rows that show the same value in that column keep their
    relative order. *)
Theorem sortedData_rearranges_stably
        (sortConfig : option SortConfig) (data : list SaleRecord) :
  Permutation (sortedData h lang sortConfig data) data
  /\ sortedData h lang None data = data
  /\ (forall config v,
         sortConfig = Some config ->
         Forall (fun r => comparable (sortValue h lang (key config) r)) data ->
         filter (fun r => sort_value_eqb (sortValue h lang (key config) r) v)
                (sortedData h lang sortConfig data)
         = filter (fun r => sort_value_eqb (sortValue h lang (key config) r) v) data).
Proof.
  split; [| split].
  - destruct sortConfig; [apply sort_perm | reflexivity].
  - reflexivity.
  - intros config v -> _. cbn [sortedData]. apply sort_stable.
    intros x y Hx Hy. apply sort_value_eqb_eq in Hx, Hy.
    unfold compareRows. cbv zeta. rewrite Hx, Hy, value_lt_irrefl. reflexivity.
Qed.

(** Once a column is chosen, the rows come out in the chosen direction of
    that column (no value of the column being NaN). *)
Theorem sortedData_in_order (config : SortConfig) (data : list SaleRecord) :
  Forall (fun r => comparable (sortValue h lang (key config) r)) data ->
  StronglySorted
    (fun a b => in_order (direction config)
                         (sortValue h lang (key config) a)
                         (sortValue h lang (key config) b))
    (sortedData h lang (Some config) data).
Proof.
  intros Hcomp. cbn [sortedData].
  apply (sort_ordered SaleRecord (compareRows h lang config) _
                      (fun r => comparable (sortValue h lang (key config) r))).
  - intros x y z. destruct (direction config); cbn [in_order]; intros H1 H2.
    + exact (value_le_trans _ _ _ H1 H2).
    + exact (value_le_trans _ _ _ H2 H1).
  - intros x y. apply compareRows_order.
  - exact Hcomp.
Qed.

(** When no two rows show the same value in a column, sorting by it in one
    direction gives exactly the reverse of sorting in the other. *)
Theorem sortedData_toggle_reverses (k : SaleKey) (data : list SaleRecord) :
  Forall (fun r => comparable (sortValue h lang k r)) data ->
  NoDup (map (sortValue h lang k) data) ->
  sortedData h lang (Some {| key := k; direction := desc |}) data
  = rev (sortedData h lang (Some {| key := k; direction := asc |}) data).
Proof.
  intros Hcomp Hdistinct.
  assert (Hsorted : forall d,
             StronglySorted
               (fun a b => in_order d (sortValue h lang k a) (sortValue h lang k b))
               (sort (compareRows h lang {| key := k; direction := d |}) data)).
  { intros d.
    apply (sort_ordered SaleRecord _ _ (fun r => comparable (sortValue h lang k r)));
      [| intros x y; apply (compareRows_order {| key := k; direction := d |}) | exact Hcomp].
    intros x y z. destruct d; cbn [in_order]; intros H1 H2;
      [exact (value_le_trans _ _ _ H1 H2) | exact (value_le_trans _ _ _ H2 H1)]. }
  pose proof (Hsorted desc) as Hdesc. pose proof (Hsorted asc) as Hasc.
  cbn [key direction in_order] in Hdesc, Hasc.
  apply StronglySorted_rev in Hasc.
  apply (sorted_arrangement_unique _ _ _ Hdesc Hasc).
  - rewrite <- Permutation_rev. cbn [sortedData].
    rewrite !sort_perm. reflexivity.
  - intros x y Hx Hy Hxy Hyx.
    assert (Hin : forall r,
               In r (sortedData h lang (Some {| key := k; direction := desc |}) data) ->
               In r data).
    { intros r. apply Permutation_in. cbn [sortedData]. apply sort_perm. }
    apply (NoDup_map_injective (sortValue h lang k) data);
      [exact Hdistinct | now apply Hin | now apply Hin |].
    now apply value_le_antisym.
Qed.

End TableSort.

(* ===================================================================== *)
(** ** Filter selections                                                 *)
(* ===================================================================== *)

Section FilterSelections.

Import App DataService.

Lemma includes_app (l1 l2 : list string) (x : string) :
  includes (l1 ++ l2) x = includes l1 x || includes l2 x.
Proof. unfold includes. apply existsb_app. Qed.

Lemma includes_without (item : string) (l : list string) (x : string) :
  includes (filter (fun i => negb (String.eqb i item)) l) x
  = includes l x && negb (String.eqb x item).
Proof.
  unfold includes. induction l as [| y l IH]; cbn [filter existsb]; [reflexivity |].
  destruct (String.eqb y item) eqn:Ey; cbn [negb existsb]; rewrite IH.
  - apply String.eqb_eq in Ey. subst y.
    destruct (String.eqb x item); cbn; [now rewrite andb_false_r | reflexivity].
  - destruct (String.eqb x y) eqn:Exy; cbn; [| reflexivity].
    apply String.eqb_eq in Exy. subst y. now rewrite Ey.
Qed.

Lemma not_includes_filter (item : string) (l : list string) :
  includes l item = false -> filter (fun i => negb (String.eqb i item)) l = l.
Proof.
  intros H. apply filter_all. intros y Hy. apply negb_true_iff.
  destruct (String.eqb y item) eqn:E; [| reflexivity].
  apply String.eqb_eq in E. subst y. apply includes_In in Hy. congruence.
Qed.

Lemma toggleSelection_NoDup (item : string) (currentList : list string) :
  NoDup currentList -> NoDup (toggleSelection item currentList).
Proof.
  unfold toggleSelection. intros Hnd. destruct (includes currentList item) eqn:E.
  - now apply NoDup_filter.
  - apply NoDup_app; [exact Hnd | repeat constructor; intros [] |].
    intros x Hx [<- | []]. apply includes_In in Hx. congruence.
Qed.

(** A click on a filter button flips that one value in the selection and
    leaves every other value as it was, selected or not. *)
Theorem toggleSelection_flips_one (item : string) (currentList : list string) (x : string) :
  includes (toggleSelection item currentList) x
  = if String.eqb x item then negb (includes currentList item)
    else includes currentList x.
Proof.
  unfold toggleSelection. destruct (includes currentList item) eqn:E.
  - rewrite includes_without. destruct (String.eqb x item); cbn;
      [apply andb_false_r | apply andb_true_r].
  - rewrite includes_app. cbn [includes existsb]. rewrite orb_false_r.
    destruct (String.eqb x item) eqn:Ex; cbn; [apply orb_true_r |].
    apply orb_false_r.
Qed.

(** Clicking a button that is off and clicking it again gives back the
    selection as it was. *)
Theorem toggleSelection_twice (item : string) (currentList : list string) :
  includes currentList item = false ->
  toggleSelection item (toggleSelection item currentList) = currentList.
Proof.
  intros Hoff. unfold toggleSelection at 2. rewrite Hoff.
  unfold toggleSelection. rewrite includes_app. cbn [includes existsb].
  rewrite String.eqb_refl, orb_true_r.
  rewrite filter_app. cbn [filter]. rewrite String.eqb_refl. cbn [negb].
  rewrite app_nil_r. now apply not_includes_filter.
Qed.

Lemma toggleSelection_twice_witness :
  App.toggleSelection "North" (App.toggleSelection "North" ["South"; "East"]%string)
  = ["South"; "East"]%string.
Proof. apply (toggleSelection_twice "North" ["South"; "East"]%string). reflexivity. Defined.

(** From the empty selection the app starts with, no series of clicks
    ever puts a value twice in the selection. *)
Theorem selection_never_repeats (clicks : list string) :
  NoDup (after_toggles clicks []).
Proof.
  unfold after_toggles.
  assert (H : forall sel, NoDup sel ->
                          NoDup (fold_left (fun sel item => toggleSelection item sel) clicks sel)).
  { induction clicks as [| c clicks IH]; intros sel Hsel; cbn [fold_left]; [exact Hsel |].
    apply IH. now apply toggleSelection_NoDup. }
  apply H. constructor.
Qed.

End FilterSelections.

(* ===================================================================== *)
(** ** The lists of filter buttons                                       *)
(* ===================================================================== *)

Section FilterButtons.

Import App.

Lemma from_Set_fold (arr seen : list string) :
  NoDup seen ->
  let out := fold_left (fun seen x => if includes seen x then seen else seen ++ [x])
                       arr seen in
  NoDup out /\ (forall x, In x out <-> In x seen \/ In x arr).
Proof.
  revert seen. induction arr as [| a arr IH]; intros seen Hnd; cbn [fold_left].
  - split; [exact Hnd |]. intros x. cbn. tauto.
  - destruct (includes seen a) eqn:E.
    + destruct (IH seen Hnd) as [H1 H2]. split; [exact H1 |].
      intros x. rewrite H2. cbn [In]. apply includes_In in E.
      split; [tauto |]. intros [H | [<- | H]]; auto.
    + assert (Hnd' : NoDup (seen ++ [a])).
      { apply NoDup_app; [exact Hnd | repeat constructor; intros [] |].
        intros x Hx [<- | []]. apply includes_In in Hx. congruence. }
      destruct (IH _ Hnd') as [H1 H2]. split; [exact H1 |].
      intros x. rewrite H2, in_app_iff. cbn [In]. tauto.
Qed.

Lemma default_compare_order (x y : string) :
  if ltb zero (default_compare x y)
  then String.leb y x = true else String.leb x y = true.
Proof.
  unfold default_compare, String.leb. rewrite (String.compare_antisym y x).
  destruct (String.compare x y); reflexivity.
Qed.

Lemma string_truthy_nonempty (s : string) : string_truthy s = true <-> s <> EmptyString.
Proof. destruct s; cbn; split; intros H; try reflexivity; congruence. Qed.

Lemma unique_values (f : SaleRecord -> string) (rawData : list SaleRecord) :
  let out := sort default_compare (filter string_truthy (from_Set (map f rawData))) in
  NoDup out
  /\ StronglySorted (fun a b => String.leb a b = true) out
  /\ (forall x, In x out <-> x <> EmptyString /\ exists r, In r rawData /\ f r = x).
Proof.
  cbv zeta. destruct (from_Set_fold (map f rawData) [] (NoDup_nil _)) as [Hnd Hin].
  fold (from_Set (map f rawData)) in Hnd, Hin.
  split; [| split].
  - apply (Permutation_NoDup (l := filter string_truthy (from_Set (map f rawData)))).
    + symmetry. apply sort_perm.
    + now apply NoDup_filter.
  - apply (sort_ordered string default_compare _ (fun _ => True)).
    + intros x y z. apply string_leb_trans.
    + intros x y _ _. apply default_compare_order.
    + apply Forall_forall. intros; exact I.
  - intros x.
    assert (Hperm : In x (sort default_compare
                            (filter string_truthy (from_Set (map f rawData))))
                    <-> In x (filter string_truthy (from_Set (map f rawData)))).
    { split; apply Permutation_in; [apply sort_perm | symmetry; apply sort_perm]. }
    rewrite Hperm, filter_In, Hin, string_truthy_nonempty, in_map_iff. cbn [In].
    split.
    + intros [[[] | [r [Hr Hrin]]] Hne]. split; [exact Hne |]. now exists r.
    + intros [Hne [r [Hrin Hr]]]. split; [| exact Hne]. right. now exists r.
Qed.

(** The region buttons and the category buttons: each list holds every
    non-empty value that occurs in the loaded records, once, in ascending
    order of code units, and nothing else. *)
Theorem filter_buttons_cover_values (rawData : list SaleRecord) :
  (NoDup (uniqueRegions rawData)
   /\ StronglySorted (fun a b => String.leb a b = true) (uniqueRegions rawData)
   /\ forall x, In x (uniqueRegions rawData)
                <-> x <> EmptyString /\ exists r, In r rawData /\ region r = x)
  /\ (NoDup (uniqueCategories rawData)
      /\ StronglySorted (fun a b => String.leb a b = true) (uniqueCategories rawData)
      /\ forall x, In x (uniqueCategories rawData)
                   <-> x <> EmptyString /\ exists r, In r rawData /\ category r = x).
Proof.
  split; [apply (unique_values region) | apply (unique_values category)].
Qed.

End FilterButtons.

(* ===================================================================== *)
(** ** Language, currency and locale                                     *)
(* ===================================================================== *)

Section LanguageAndCurrency.

Import App.

(** After a language change the currency is BRL for Portuguese, USD for
    English and one of ARS, PYG, UYU for Spanish (the one in force if it
    already was one of them); running the effect again changes nothing;
    and the locale the views derive from that currency is a locale of the
    chosen language. *)
Theorem currencyForLanguage_settles (language : Language) (currency : Currency) :
  currencyForLanguage language (currencyForLanguage language currency)
  = currencyForLanguage language currency
  /\ currencyForLanguage pt currency = BRL
  /\ currencyForLanguage en currency = USD
  /\ In (currencyForLanguage es currency) [ARS; PYG; UYU]
  /\ (In currency [ARS; PYG; UYU] -> currencyForLanguage es currency = currency)
  /\ String.prefix (language_code language)
                   (DataGrid.locale (currencyForLanguage language currency)) = true.
Proof.
  split; [destruct language, currency; reflexivity |].
  split; [reflexivity |]. split; [reflexivity |].
  split; [destruct currency; cbn; tauto |].
  split; [| destruct language, currency; reflexivity].
  intros [<- | [<- | [<- | []]]]; reflexivity.
Qed.

End LanguageAndCurrency.

Lemma currencyForLanguage_settles_witness :
  App.currencyForLanguage es PYG = PYG.
Proof.
  apply (proj1 (proj2 (proj2 (proj2 (proj2 (currencyForLanguage_settles es PYG)))))).
  cbn. tauto.
Defined.

(* ===================================================================== *)
(** ** The rate table over time                                          *)
(* ===================================================================== *)

Section RateTable.

Import App.

Lemma clampRate_at_least (input : string) : leb minRate (clampRate input) = true.
Proof.
  rewrite clampRate_eval. cbv zeta.
  destruct (ltb minRate (or_else (parseFloat input) zero)) eqn:L.
  - now apply ltb_leb.
  - reflexivity.
Qed.

Lemma onRateChange_floor (currency : Currency) (input : string) (prev : Rates) :
  rates_floor prev -> rates_floor (onRateChange currency input prev).
Proof.
  unfold rates_floor, onRateChange. intros [H0 [H1 [H2 [H3 H4]]]].
  pose proof (clampRate_at_least input) as Hc.
  destruct currency; cbn [with_rate rBRL rUSD rARS rPYG rUYU]; repeat split; assumption.
Qed.

Lemma after_edits_floor (edits : list (Currency * string)) (rates : Rates) :
  rates_floor rates -> rates_floor (after_edits edits rates).
Proof.
  unfold after_edits. revert rates.
  induction edits as [| e edits IH]; intros rates H; cbn [fold_left]; [exact H |].
  apply IH. now apply onRateChange_floor.
Qed.

Lemma above_minRate_positive (r : number) :
  leb minRate r = true -> ltb zero r = true.
Proof. intros H. apply ltb_leb_trans with (b := minRate); [reflexivity | exact H]. Qed.

Lemma reciprocal_sign (r : number) :
  leb minRate r = true ->
  (is_finite r = true /\ ltb zero (div one r) = true)
  \/ (r = PosInf /\ div one r = zero).
Proof.
  intros H. pose proof (above_minRate_positive r H) as Hpos.
  destruct r as [| | q |]; try discriminate.
  - left. split; [reflexivity |].
    cbn [ltb zero of_Z num] in Hpos. apply Qc_ltb_lt in Hpos.
    cbn [div one of_Z num]. unfold sgn.
    assert (Hsgn : (q ?= Q2Qc 0)%Qc = Gt).
    { apply Qcgt_alt. exact Hpos. }
    rewrite Hsgn. cbn [ltb zero of_Z num]. apply Qc_ltb_lt.
    unfold Qcdiv. rewrite Qcmult_1_l.
    unfold Qclt, Qcinv, Q2Qc. cbn [this]. rewrite !Qred_correct.
    apply Qinv_lt_0_compat. exact Hpos.
  - right. split; reflexivity.
Qed.

(** Whatever is typed in the rate input, in whatever order and under
    whatever currency, every rate of the table stays at or above 0.0001,
    and so the conversion factor of every currency is a number that is not
    negative: positive in fact, except that an infinite USD rate gives the
    factor 0. *)
Theorem conversion_factor_stays_sound
        (edits : list (Currency * string)) (currency : Currency) :
  let rates := after_edits edits initialRates in
  rates_floor rates
  /\ is_nan (conversionFactor currency rates) = false
  /\ leb zero (conversionFactor currency rates) = true
  /\ (ltb zero (conversionFactor currency rates) = true
      \/ (currency = USD /\ rUSD rates = PosInf
          /\ conversionFactor currency rates = zero)).
Proof.
  cbv zeta.
  assert (Hfloor : rates_floor (after_edits edits initialRates)).
  { apply after_edits_floor. unfold rates_floor. cbn. repeat split; reflexivity. }
  split; [exact Hfloor |].
  destruct Hfloor as [_ [Husd [Hars [Hpyg Huyu]]]].
  assert (Hsign : ltb zero (conversionFactor currency (after_edits edits initialRates)) = true
                  \/ (currency = USD /\ rUSD (after_edits edits initialRates) = PosInf
                      /\ conversionFactor currency (after_edits edits initialRates) = zero)).
  { destruct currency; cbn [conversionFactor].
    - left. reflexivity.
    - destruct (reciprocal_sign _ Husd) as [[_ H] | [H1 H2]]; [now left | now right].
    - left. now apply above_minRate_positive.
    - left. now apply above_minRate_positive.
    - left. now apply above_minRate_positive. }
  assert (Hge : leb zero (conversionFactor currency (after_edits edits initialRates)) = true).
  { destruct Hsign as [H | [_ [_ ->]]]; [now apply ltb_leb | reflexivity]. }
  split; [exact (proj2 (leb_not_nan _ _ Hge)) |].
  split; [exact Hge | exact Hsign].
Qed.

End RateTable.

(* ===================================================================== *)
(** ** Mock login                                                        *)
(* ===================================================================== *)

Section MockLogin.

Import DatabaseService.

Lemma before_first_clean (sep : ascii) (s : string) :
  String.prefix (before_first sep s) s = true
  /\ string_includes (before_first sep s) (String sep EmptyString) = false.
Proof.
  induction s as [| c s [IH1 IH2]]; [split; reflexivity |].
  cbn [before_first]. destruct (Ascii.eqb c sep) eqn:E; [split; reflexivity |].
  split.
  - cbn [String.prefix]. destruct (ascii_dec c c); [exact IH1 | congruence].
  - cbn [string_includes String.prefix]. rewrite IH2.
    destruct (ascii_dec sep c) as [-> | Hne].
    + rewrite Ascii.eqb_refl in E. discriminate.
    + reflexivity.
Qed.

Lemma before_first_split (sep : ascii) (s : string) :
  s = before_first sep s
  \/ exists rest, s = (before_first sep s ++ String sep rest)%string.
Proof.
  induction s as [| c s IH]; [now left |].
  cbn [before_first]. destruct (Ascii.eqb c sep) eqn:E.
  - apply Ascii.eqb_eq in E. subst c. right. now exists s.
  - destruct IH as [IH | [rest IH]].
    + left. now rewrite <- IH.
    + right. exists rest. cbn [append]. now rewrite <- IH.
Qed.

(** Who gets in: exactly the pairs whose email contains [admin] and whose
    password has at least three characters (the fixed pair
    admin@admin.com / 1234 is one of them).  A successful login returns
    the user, named by the part of the email before its first [@] (the
    name has no [@], and the email is the name, or the name followed by
    [@] and the rest), and leaves that user as the current session; a
    refused one throws and leaves the session as it was; after a logout
    there is no current user. *)
Theorem login_accepts_any_admin
        (now email password : string) (session : Session) :
  (credentialsAccepted email password = true
   <-> string_includes email "admin" = true /\ (3 <= String.length password)%nat)
  /\ (credentialsAccepted email password = true ->
      exists user,
        login now email password session = (inl user, Some user)
        /\ getCurrentUser (snd (login now email password session)) = Some user
        /\ DatabaseService.email user = email
        /\ string_includes (userName user) "@" = false
        /\ (email = userName user
            \/ exists rest, email = (userName user ++ "@" ++ rest)%string))
  /\ (credentialsAccepted email password = false ->
      login now email password session = (inr "Invalid credentials"%string, session))
  /\ getCurrentUser (logout (snd (login now email password session))) = None.
Proof.
  split; [| split; [| split]].
  - unfold credentialsAccepted.
    rewrite orb_true_iff, !andb_true_iff, Nat.leb_le, !String.eqb_eq. split.
    + intros [[-> ->] | H]; [split; [reflexivity | cbn; lia] | exact H].
    + intros H. now right.
  - intros Hok. unfold login. rewrite Hok. eexists. split; [reflexivity |].
    cbn [snd getCurrentUser DatabaseService.email userName].
    split; [reflexivity |]. split; [reflexivity |].
    split; [apply before_first_clean | apply before_first_split].
  - intros Hno. unfold login. now rewrite Hno.
  - reflexivity.
Qed.

End MockLogin.

Lemma login_accepts_any_admin_witness :
  exists user,
    DatabaseService.login "0" "not-an-admin@example.com" "abc" None
    = (inl user, Some user)
    /\ DatabaseService.userName user = "not-an-admin"%string.
Proof.
  destruct (proj1 (proj2 (login_accepts_any_admin "0" "not-an-admin@example.com" "abc" None)))
    as [user [Hlogin _]]; [reflexivity |].
  exists user. split; [exact Hlogin |].
  cbn in Hlogin. injection Hlogin as <-. reflexivity.
Defined.

(* ===================================================================== *)
(** ** Filters compose                                                   *)
(* ===================================================================== *)

Section FiltersCompose.

Import DataService.

Lemma filter_comm {A : Type} (f g : A -> bool) (l : list A) :
  filter f (filter g l) = filter g (filter f l).
Proof.
  induction l as [| x l IH]; cbn [filter]; [reflexivity |].
  destruct (f x) eqn:Ef, (g x) eqn:Eg; cbn [filter];
    rewrite ?Ef, ?Eg, IH; reflexivity.
Qed.

Lemma filter_narrow {A : Type} (f g : A -> bool) (l : list A) :
  (forall x, f x = true -> g x = true) -> filter f (filter g l) = filter f l.
Proof.
  intros Himp. induction l as [| x l IH]; cbn [filter]; [reflexivity |].
  destruct (g x) eqn:Eg; cbn [filter]; rewrite IH; [reflexivity |].
  destruct (f x) eqn:Ef; [| reflexivity].
  rewrite (Himp x Ef) in Eg. discriminate.
Qed.

Lemma wider_match (sel sel' : list string) (x : string) :
  wider sel sel' ->
  (List.length sel =? 0)%nat || includes sel x = true ->
  (List.length sel' =? 0)%nat || includes sel' x = true.
Proof.
  intros Hw. rewrite !selection_match. destruct Hw as [-> | [Hne Hincl]]; [now left |].
  intros [-> | Hin]; [contradiction | right; now apply Hincl].
Qed.

(** The filter works record by record: it distributes over the
    concatenation of two record lists, two filters can be applied in
    either order, the date-range filter of the table can come before or
    after it, and filtering with a wider selection first changes nothing:
    widening a selection only adds records. *)
Theorem filterData_composes
        (data more : list SaleRecord) (rs cs rs' cs' : list string)
        (tz : Z) (startDate endDate : string) :
  filterData (data ++ more) rs cs = filterData data rs cs ++ filterData more rs cs
  /\ filterData (filterData data rs cs) rs' cs'
     = filterData (filterData data rs' cs') rs cs
  /\ DataGrid.filteredByDateData tz (filterData data rs cs) startDate endDate
     = filterData (DataGrid.filteredByDateData tz data startDate endDate) rs cs
  /\ (wider rs rs' -> wider cs cs' ->
      filterData (filterData data rs' cs') rs cs = filterData data rs cs
      /\ incl (filterData data rs cs) (filterData data rs' cs')).
Proof.
  split; [apply filter_app |]. split; [apply filter_comm |]. split.
  - unfold DataGrid.filteredByDateData.
    destruct (negb (DataGrid.nonempty startDate) && negb (DataGrid.nonempty endDate));
      [reflexivity | apply filter_comm].
  - intros Hr Hc.
    assert (Heq : filterData (filterData data rs' cs') rs cs = filterData data rs cs).
    { unfold filterData. apply filter_narrow. intros r. cbv zeta.
      rewrite !andb_true_iff. intros [H1 H2].
      split; [exact (wider_match _ _ _ Hr H1) | exact (wider_match _ _ _ Hc H2)]. }
    split; [exact Heq |].
    rewrite <- Heq. unfold filterData at 1. intros r Hr'. apply filter_In in Hr'.
    exact (proj1 Hr').
Qed.

End FiltersCompose.

Lemma filterData_composes_witness :
  incl (DataService.filterData [sample_north; sample_south] ["North"]%string [])
       (DataService.filterData [sample_north; sample_south] ["North"; "South"]%string []).
Proof.
  apply (proj2 (proj2 (proj2 (filterData_composes
                                [sample_north; sample_south] [] ["North"]%string []
                                ["North"; "South"]%string [] 0 "" ""))));
    [right | left; reflexivity].
  split; [discriminate |]. intros x [<- | []]. now left.
Defined.

(* ===================================================================== *)
(** ** Totals                                                            *)
(* ===================================================================== *)

Section Totals.

Import App DataService.

Lemma total_as_sum (f : SaleRecord -> number) (data : list SaleRecord) :
  reduce (fun sum item => add sum (f item)) zero data = sum_of (map f data).
Proof. now rewrite reduce_add_sum, add_zero_l. Qed.

Lemma add_fin_le (a b c d : Qc) :
  (a <= b)%Qc -> (c <= d)%Qc -> leb (add (Fin a) (Fin c)) (add (Fin b) (Fin d)) = true.
Proof. intros H1 H2. cbn [add leb]. apply Qc_leb_le. now apply Qcplus_le_compat. Qed.

Lemma filtered_sum_le (f : SaleRecord -> number) (p : SaleRecord -> bool)
      (data : list SaleRecord) :
  Forall (fun r => is_finite (f r) = true /\ leb zero (f r) = true) data ->
  exists a b, sum_of (map f (filter p data)) = Fin a
              /\ sum_of (map f data) = Fin b /\ (a <= b)%Qc.
Proof.
  induction 1 as [| r data [Hfin Hpos] _ [a [b [Ha [Hb Hab]]]]].
  - exists (Q2Qc (inject_Z 0)), (Q2Qc (inject_Z 0)). repeat split. apply Qcle_refl.
  - destruct (f r) as [| | q |] eqn:Hq; try discriminate.
    cbn [leb zero of_Z num] in Hpos. apply Qc_leb_le in Hpos.
    cbn [filter map]. destruct (p r); cbn [map sum_of fold_right].
    + fold (sum_of (map f (filter p data))) (sum_of (map f data)).
      rewrite Hq, Ha, Hb. exists (q + a)%Qc, (q + b)%Qc. repeat split.
      apply Qcplus_le_compat; [apply Qcle_refl | exact Hab].
    + fold (sum_of (map f data)). rewrite Hq, Hb.
      exists a, (q + b)%Qc. repeat split; [exact Ha |].
      rewrite <- (Qcplus_0_l a). now apply Qcplus_le_compat.
Qed.

(** With sales and quantities that are finite and not negative, filtering
    never raises a total: the filtered totalSales and totalQuantity are at
    most those of the whole set. *)
Theorem filtering_never_raises_totals
        (data : list SaleRecord) (rs cs : list string) :
  Forall (fun r => is_finite (sales r) = true /\ leb zero (sales r) = true) data ->
  Forall (fun r => is_finite (quantity r) = true /\ leb zero (quantity r) = true) data ->
  leb (totalSales (metrics (filterData data rs cs))) (totalSales (metrics data)) = true
  /\ leb (totalQuantity (metrics (filterData data rs cs)))
         (totalQuantity (metrics data)) = true.
Proof.
  intros Hs Hq. cbn [totalSales totalQuantity metrics]. rewrite !total_as_sum.
  unfold filterData.
  match goal with |- context [filter ?p data] => set (keep := p) end.
  split.
  - destruct (filtered_sum_le sales keep data Hs) as [a [b [-> [-> Hab]]]].
    now apply Qc_leb_le.
  - destruct (filtered_sum_le quantity keep data Hq) as [a [b [-> [-> Hab]]]].
    now apply Qc_leb_le.
Qed.

End Totals.

Lemma filtering_never_raises_totals_witness :
  leb (App.totalSales (App.metrics
         (DataService.filterData [sample_north; sample_south] ["North"]%string [])))
      (App.totalSales (App.metrics [sample_north; sample_south])) = true.
Proof.
  apply (filtering_never_raises_totals [sample_north; sample_south] ["North"]%string []);
    repeat constructor.
Defined.

(* ===================================================================== *)
(** ** Table view: the date range on any host                            *)
(* ===================================================================== *)

Section DateRangeAnywhere.

Import DataGrid.

Variable zone : Date.Zone.

(** On a host whose offset never changes, the filter is the one of that
    fixed offset. *)
Lemma filteredByDateDataIn_fixed (tz : Z) (data : list SaleRecord)
      (startDate endDate : string) :
  filteredByDateDataIn (Date.fixedZone tz) data startDate endDate
  = filteredByDateData tz data startDate endDate.
Proof.
  unfold filteredByDateDataIn, filteredByDateData, Date.setHoursIn, Date.setHours.
  cbn [Date.fixedZone Date.offsetAt Date.offsetOfLocal]. reflexivity.
Qed.

(** [setHours] lands on the local day that contains the instant. *)
Lemma setHoursIn_local_day (day shift h m s ms : Z) :
  (shift * Date.msPerDay
   <= Date.offsetAt zone (day * Date.msPerDay)
   < (shift + 1) * Date.msPerDay)%Z ->
  Date.setHoursIn zone (Some (day * Date.msPerDay)%Z) h m s ms
  = Some (wall_clock zone ((day + shift) * Date.msPerDay
                           + ((h * 60 + m) * 60 + s) * 1000 + ms))%Z.
Proof.
  intros Hoff. unfold Date.setHoursIn, wall_clock. cbv zeta.
  replace ((day * Date.msPerDay + Date.offsetAt zone (day * Date.msPerDay))
           / Date.msPerDay)%Z with (day + shift)%Z; [reflexivity |].
  unfold Date.msPerDay in *.
  apply (Z.div_unique _ 86400000 (day + shift)
           (Date.offsetAt zone (day * 86400000) - shift * 86400000)); lia.
Qed.

(** The date-range filter on any host, whatever its clock changes.  A
    date input is read as UTC midnight of its day, and the bound is set
    within the local day that contains that instant: the day itself where
    the host is then at or ahead of UTC (shift 0), the day BEFORE where it
    is behind (shift -1).  A record is kept exactly when its time value
    lies between the instants at which the host's clocks show
    00:00:00.000 of that local day for the start input and 23:59:59.999 of
    that local day for the end input, bounds included, an empty input
    leaving its side open. *)
Theorem date_range_on_any_host (shift shift' : Z) (data : list SaleRecord)
        (startDate endDate : string) :
  utc_midnight_falls zone shift startDate ->
  utc_midnight_falls zone shift' endDate ->
  Selects (fun r => in_local_days zone shift shift' startDate endDate (date r))
          data (filteredByDateDataIn zone data startDate endDate).
Proof.
  intros Hs He. unfold filteredByDateDataIn.
  assert (Hstart : forall ts,
             geb (of_Z ts)
                 (if nonempty startDate
                  then Date.time_number (Date.setHoursIn zone (Date.parse startDate) 0 0 0 0)
                  else NegInf) = true
             <-> (startDate = EmptyString
                  \/ exists day, Date.civil_day startDate = Some day
                                 /\ (wall_clock zone ((day + shift) * Date.msPerDay)
                                     <= ts)%Z)).
  { intros ts. unfold Date.parse. destruct Hs as [-> | [day [E Hoff]]].
    - cbn. split; [now left | reflexivity].
    - rewrite (civil_day_nonempty _ _ E), E, (setHoursIn_local_day _ shift) by exact Hoff.
      unfold geb. cbn [Date.time_number]. rewrite leb_of_Z, Z.leb_le.
      replace ((day + shift) * Date.msPerDay + ((0 * 60 + 0) * 60 + 0) * 1000 + 0)%Z
        with ((day + shift) * Date.msPerDay)%Z by lia.
      split.
      + intros H. right. exists day. now split.
      + intros [-> | [day' [E' Hle]]]; [discriminate |]. congruence. }
  assert (Hend : forall ts,
             leb (of_Z ts)
                 (if nonempty endDate
                  then Date.time_number
                         (Date.setHoursIn zone (Date.parse endDate) 23 59 59 999)
                  else PosInf) = true
             <-> (endDate = EmptyString
                  \/ exists day, Date.civil_day endDate = Some day
                                 /\ (ts <= wall_clock zone ((day + shift') * Date.msPerDay
                                                            + (Date.msPerDay - 1)))%Z)).
  { intros ts. unfold Date.parse. destruct He as [-> | [day [E Hoff]]].
    - cbn. split; [now left | reflexivity].
    - rewrite (civil_day_nonempty _ _ E), E, (setHoursIn_local_day _ shift') by exact Hoff.
      cbn [Date.time_number]. rewrite leb_of_Z, Z.leb_le.
      replace ((day + shift') * Date.msPerDay + ((23 * 60 + 59) * 60 + 59) * 1000 + 999)%Z
        with ((day + shift') * Date.msPerDay + (Date.msPerDay - 1))%Z
        by (unfold Date.msPerDay; lia).
      split.
      + intros H. right. exists day. now split.
      + intros [-> | [day' [E' Hle]]]; [discriminate |]. congruence. }
  destruct (negb (nonempty startDate) && negb (nonempty endDate)) eqn:Hnone.
  - apply andb_true_iff in Hnone. destruct Hnone as [H1 H2].
    apply negb_true_iff, nonempty_false in H1, H2. subst.
    rewrite <- (filter_all (fun _ => true) data) at 2 by reflexivity.
    apply Selects_filter. intros r. unfold in_local_days. split; auto.
  - apply Selects_filter. intros r. unfold in_local_days.
    rewrite andb_true_iff, Hstart, Hend. reflexivity.
Qed.

(** When the host's offset from UTC does not change from the day before
    the end day to the day after the start day, a start day later than the
    end day leaves the table empty. *)
Theorem date_range_inverted_is_empty
        (tz : Z) (data : list SaleRecord) (startDate endDate : string)
        (startDay endDay : Z) :
  Date.civil_day startDate = Some startDay ->
  Date.civil_day endDate = Some endDay ->
  (endDay < startDay)%Z ->
  (- Date.msPerDay <= tz <= Date.msPerDay)%Z ->
  steady_between zone tz endDay startDay ->
  filteredByDateDataIn zone data startDate endDate = [].
Proof.
  intros Hs He Hlt Htz Hsteady. unfold filteredByDateDataIn, Date.parse.
  rewrite (civil_day_nonempty _ _ Hs), (civil_day_nonempty _ _ He), Hs, He.
  cbn [negb andb]. unfold Date.setHoursIn. cbv zeta.
  assert (Hat : forall day, (endDay <= day <= startDay)%Z ->
                            Date.offsetAt zone (day * Date.msPerDay) = tz).
  { intros day Hday. apply Hsteady. unfold Date.msPerDay. nia. }
  rewrite (Hat startDay), (Hat endDay) by lia.
  rewrite !Z.div_add_l by (unfold Date.msPerDay; lia).
  assert (Hq : (-1 <= tz / Date.msPerDay <= 1)%Z).
  { unfold Date.msPerDay in *. split.
    - apply Z.div_le_lower_bound; lia.
    - apply Z.div_le_upper_bound; lia. }
  assert (Hlocal : forall l,
             ((endDay - 1) * Date.msPerDay <= l <= (startDay + 1) * Date.msPerDay)%Z ->
             Date.offsetOfLocal zone l = tz).
  { intros l Hl. now apply Hsteady. }
  rewrite !Hlocal by (unfold Date.msPerDay in *; nia).
  cbn [Date.time_number].
  induction data as [| r data IH]; cbn [filter]; [reflexivity |].
  rewrite IH. unfold geb. rewrite !leb_of_Z.
  destruct ((_ <=? date r)%Z) eqn:E1; [| reflexivity].
  destruct ((date r <=? _)%Z) eqn:E2; [| reflexivity].
  apply Z.leb_le in E1, E2. unfold Date.msPerDay in *. exfalso. nia.
Qed.

End DateRangeAnywhere.

(** Berlin on 31 March 2024, the day its clocks go forward: the range of
    that one day runs from 00:00:00.000 at UTC+1 to 23:59:59.999 at UTC+2,
    23 hours in all.  New York with 11 March 2024 as both bounds, the day
    after its clocks go forward: the range kept is 10 March, from
    00:00:00.000 at UTC-5 to 23:59:59.999 at UTC-4. *)
Lemma date_range_on_any_host_witness :
  (Selects (fun r => in_local_days berlin_2024 0 0 "2024-03-31" "2024-03-31" (date r))
           [dated 1711839599999; dated 1711839600000;
            dated 1711922399999; dated 1711922400000]
           (DataGrid.filteredByDateDataIn
              berlin_2024
              [dated 1711839599999; dated 1711839600000;
               dated 1711922399999; dated 1711922400000]
              "2024-03-31" "2024-03-31")
   /\ DataGrid.filteredByDateDataIn
        berlin_2024
        [dated 1711839599999; dated 1711839600000;
         dated 1711922399999; dated 1711922400000]
        "2024-03-31" "2024-03-31"
      = [dated 1711839600000; dated 1711922399999])
  /\ (Selects (fun r => in_local_days new_york_2024 (-1) (-1)
                                      "2024-03-11" "2024-03-11" (date r))
              [dated 1710046799999; dated 1710046800000;
               dated 1710129599999; dated 1710129600000]
              (DataGrid.filteredByDateDataIn
                 new_york_2024
                 [dated 1710046799999; dated 1710046800000;
                  dated 1710129599999; dated 1710129600000]
                 "2024-03-11" "2024-03-11")
      /\ DataGrid.filteredByDateDataIn
           new_york_2024
           [dated 1710046799999; dated 1710046800000;
            dated 1710129599999; dated 1710129600000]
           "2024-03-11" "2024-03-11"
         = [dated 1710046800000; dated 1710129599999]).
Proof.
  split; (split; [| vm_compute; reflexivity]).
  - apply (date_range_on_any_host
             berlin_2024 0 0
             [dated 1711839599999; dated 1711839600000;
              dated 1711922399999; dated 1711922400000]
             "2024-03-31" "2024-03-31");
      right; exists 19813%Z; (split; [reflexivity | vm_compute; intuition discriminate]).
  - apply (date_range_on_any_host
             new_york_2024 (-1) (-1)
             [dated 1710046799999; dated 1710046800000;
              dated 1710129599999; dated 1710129600000]
             "2024-03-11" "2024-03-11");
      right; exists 19793%Z; (split; [reflexivity | vm_compute; intuition discriminate]).
Defined.

(** Why the offset must not change in between: on the Azores, with 28
    October 2024 as start day and 27 October as end day, both bounds land
    on 27 October local time, and a record of that day is kept although
    the start day is the later one. *)
Lemma date_range_inverted_across_clock_change :
  DataGrid.filteredByDateDataIn azores_2024 [dated 1730030400000]
                                "2024-10-28" "2024-10-27"
  = [dated 1730030400000].
Proof. vm_compute. reflexivity. Qed.

Lemma date_range_inverted_is_empty_witness :
  DataGrid.filteredByDateDataIn berlin_2024 [sample_north; sample_south]
                                "2024-01-15" "2024-01-14" = [].
Proof.
  apply (date_range_inverted_is_empty berlin_2024 3600000 [sample_north; sample_south]
                                      "2024-01-15" "2024-01-14" 19737 19736);
    [reflexivity | reflexivity | lia | unfold Date.msPerDay; lia |].
  intros t Ht. unfold Date.msPerDay in Ht. cbn [berlin_2024 Date.offsetAt Date.offsetOfLocal].
  split.
  - destruct (Z.ltb_spec t 1711846800000); [reflexivity | lia].
  - destruct (Z.ltb_spec t (1711846800000 + 7200000)); [reflexivity | lia].
Defined.

(* ===================================================================== *)
(** ** Excel serial dates                                                *)
(* ===================================================================== *)

Section ExcelDates.

Import DataService.

Lemma Math_round_integer (q : Qc) (m : Z) :
  (this q == inject_Z m)%Q -> Math_round (Fin q) = of_Z m.
Proof.
  intros Hq. cbn [Math_round]. f_equal.
  rewrite (Qfloor_comp _ (inject_Z m + (1 # 2))) by now rewrite Hq.
  unfold Qfloor, Qplus, inject_Z. cbn [Qnum Qden].
  symmetry. apply (Z.div_unique _ _ m 1); lia.
Qed.

Lemma of_number_of_Z (t : Z) :
  (-8640000000000000 <= t <= 8640000000000000)%Z ->
  Date.of_number (of_Z t) = Some t.
Proof.
  intros Ht.
  assert (Hin : leb (of_Z (-8640000000000000)) (of_Z t)
                && leb (of_Z t) (of_Z 8640000000000000) = true).
  { rewrite !leb_of_Z. apply andb_true_iff. rewrite !Z.leb_le. lia. }
  unfold Date.of_number. change (of_Z t) with (Fin (Q2Qc (inject_Z t))) in *.
  cbv iota. rewrite Hin. f_equal.
  cbn [this Q2Qc Qred inject_Z Qnum Qden].
  destruct (Z.ggcd t 1) as [g [a b]] eqn:E.
  pose proof (Z.ggcd_correct_divisors t 1) as Hd. rewrite E in Hd.
  pose proof (Z.ggcd_gcd t 1) as Hg. rewrite E in Hg. cbn [fst] in Hg.
  rewrite Z.gcd_1_r in Hg. subst g. destruct Hd as [Ha Hb].
  cbn [Qnum Qden snd]. rewrite Z.mul_1_l in Ha, Hb. subst a. rewrite <- Hb.
  apply Z.quot_1_r.
Qed.

Lemma of_number_out_of_range (t : Z) :
  (t < -8640000000000000 \/ 8640000000000000 < t)%Z ->
  Date.of_number (of_Z t) = None.
Proof.
  intros Ht.
  assert (Hout : leb (of_Z (-8640000000000000)) (of_Z t)
                 && leb (of_Z t) (of_Z 8640000000000000) = false).
  { rewrite !leb_of_Z. apply andb_false_iff. rewrite !Z.leb_gt. lia. }
  unfold Date.of_number. change (of_Z t) with (Fin (Q2Qc (inject_Z t))) in *.
  cbv iota. now rewrite Hout.
Qed.

Lemma excelSerialTime_whole (n : Z) :
  excelSerialTime (of_Z n)
  = of_Z ((Date.days_from_civil 1899 12 30 + n) * Date.msPerDay).
Proof.
  unfold excelSerialTime, of_Z, num. cbn [add sub neg mul].
  apply Math_round_integer.
  unfold Qcmult, Qcplus, Qcopp, Q2Qc. cbn [this]. rewrite !Qred_correct.
  change (Date.days_from_civil 1899 12 30) with (-25569)%Z. unfold Date.msPerDay.
  rewrite <- inject_Z_opp, <- inject_Z_plus, <- !inject_Z_mult.
  apply inject_Z_injective. lia.
Qed.

Lemma truthy_of_Z (n : Z) : truthy (of_Z n) = negb (n =? 0)%Z.
Proof.
  unfold truthy, of_Z, num. f_equal.
  destruct (n =? 0)%Z eqn:E.
  - apply Z.eqb_eq in E. now subst.
  - apply Z.eqb_neq in E.
    destruct (Qc_eq_bool (Q2Qc (inject_Z n)) (Q2Qc 0)) eqn:Q; [| reflexivity].
    apply Qc_eq_bool_correct in Q.
    assert (Hc : (Q2Qc (inject_Z n) ?= Q2Qc (inject_Z 0))%Qc = Eq) by (rewrite Q; apply Qceq_alt; reflexivity).
    rewrite of_Z_compare in Hc. apply Z.compare_eq in Hc. contradiction.
Qed.

(** The date a row of an uploaded sheet gets from its date cell.  A whole
    Excel serial [n] other than 0, at most 100 million days from the
    epoch, gives midnight UTC of the day [n] days after 30 December 1899;
    a whole serial further away gives an invalid date; and the serial 0,
    like a missing cell, an empty text, NaN or [false], leaves the row
    with the time of the upload. *)
Theorem rowDate_of_excel_serial
        (now : Z) (parseText : string -> option Z) (n : Z) :
  (n <> 0%Z ->
   (-100000000 <= n - 25569 <= 100000000)%Z ->
   rowDate now parseText (CellNumber (of_Z n))
   = Some ((Date.days_from_civil 1899 12 30 + n) * Date.msPerDay)%Z)
  /\ ((n - 25569 < -100000000 \/ 100000000 < n - 25569)%Z ->
      rowDate now parseText (CellNumber (of_Z n)) = None)
  /\ rowDate now parseText (CellNumber (of_Z 0)) = Some now
  /\ rowDate now parseText (CellNumber NaN) = Some now
  /\ rowDate now parseText CellEmpty = Some now
  /\ rowDate now parseText (CellText EmptyString) = Some now
  /\ rowDate now parseText (CellBool false) = Some now.
Proof.
  split; [| split; [| repeat split]].
  - intros Hn Hrange. unfold rowDate. cbn [cellTruthy]. rewrite truthy_of_Z.
    replace (n =? 0)%Z with false by (symmetry; now apply Z.eqb_neq). cbn [negb].
    rewrite excelSerialTime_whole. apply of_number_of_Z.
    change (Date.days_from_civil 1899 12 30) with (-25569)%Z. unfold Date.msPerDay. lia.
  - intros Hrange. unfold rowDate. cbn [cellTruthy]. rewrite truthy_of_Z.
    replace (n =? 0)%Z with false by (symmetry; apply Z.eqb_neq; lia). cbn [negb].
    rewrite excelSerialTime_whole. apply of_number_out_of_range.
    change (Date.days_from_civil 1899 12 30) with (-25569)%Z. unfold Date.msPerDay. lia.
Qed.

End ExcelDates.

Lemma rowDate_of_excel_serial_witness :
  DataService.rowDate 0 (fun _ => None) (DataService.CellNumber (of_Z 45306))
  = Some 1705276800000%Z.
Proof.
  apply (proj1 (rowDate_of_excel_serial 0 (fun _ => None) 45306)); lia.
Defined.

(* ===================================================================== *)
(** ** Sales by region                                                   *)
(* ===================================================================== *)

Section RegionRadar.

Import App ChartsSection.

Lemma group_step_by (field : SaleRecord -> string) (f qs : Qc)
      (o : object) (r : SaleRecord) :
  fin_valued o -> sales r = Fin qs -> proto_member (field r) = false ->
  let o' := set o (field r)
                (value_plus (value_or_zero (get o (field r))) (sales r)) in
  fin_valued o'
  /\ scaled_sum (Fin f) o' = add (scaled_sum (Fin f) o) (mul (sales r) (Fin f)).
Proof.
  intros Ho Hs Hk. cbv zeta. unfold set, get.
  rewrite (not_proto_key _ Hk), Hk, Hs.
  destruct (own o (field r)) as [v |] eqn:Hown.
  - destruct (own_fin_valued _ _ _ Ho Hown) as [q ->].
    cbn [value_or_zero value_plus]. rewrite or_else_fin. cbn [add].
    split; [now apply replace_own_fin_valued | now apply scaled_sum_replace].
  - cbn [value_or_zero value_plus]. rewrite add_zero_l. split.
    + apply Forall_app. split; [exact Ho |]. constructor; [now exists qs | constructor].
    + unfold scaled_sum. rewrite map_app, sum_of_app. f_equal.
      cbn [map sum_of fold_right snd value_times]. apply add_zero_r.
Qed.

Lemma grouped_by_from (field : SaleRecord -> string) (f : Qc)
      (data : list SaleRecord) (acc : object) :
  fin_valued acc ->
  Forall (fun r => is_finite (sales r) = true) data ->
  Forall (fun r => proto_member (field r) = false) data ->
  let o := reduce (fun acc curr =>
                     set acc (field curr)
                         (value_plus (value_or_zero (get acc (field curr))) (sales curr)))
                  acc data in
  fin_valued o
  /\ scaled_sum (Fin f) o
     = add (scaled_sum (Fin f) acc)
           (sum_of (map (fun s => mul s (Fin f)) (map sales data))).
Proof.
  unfold reduce. intros Hacc Hfin. revert acc Hacc.
  induction Hfin as [| r data Hr _ IH]; intros acc Hacc Hkeys; cbn [fold_left map].
  - split; [exact Hacc |]. cbn [sum_of fold_right]. now rewrite add_zero_r.
  - inversion Hkeys as [| ? ? Hk Hks]; subst.
    destruct (sales r) as [| | qs |] eqn:Hs; try discriminate.
    destruct (group_step_by field f qs acc r Hacc Hs Hk) as [Hfv Hsum].
    rewrite Hs in Hfv, Hsum.
    destruct (IH _ Hfv Hks) as [Ho Heq].
    split; [exact Ho |].
    rewrite Heq, Hsum. cbn [sum_of fold_right].
    fold (sum_of (map (fun s => mul s (Fin f)) (map sales data))).
    symmetry. apply add_assoc.
Qed.

Lemma fin_valued_no_nan (es : object) :
  fin_valued es -> existsb is_nan (map (fun e => to_number (snd e)) es) = false.
Proof.
  induction 1 as [| e es [q Hq] _ IH]; [reflexivity |].
  cbn [map existsb]. now rewrite Hq, IH.
Qed.

(** The radar of regions, for records with finite sales and ordinary
    region names and a finite conversion factor that is not negative: no
    axis exceeds the full mark; and, when there is an axis at all, one of
    them reaches it. *)
Theorem regionData_within_full_mark
        (getDataTranslation : string -> Language -> string)
        (data : list SaleRecord) (lang : Language) (conversionFactor : number) :
  Forall (fun r => is_finite (sales r) = true) data ->
  Forall (fun r => proto_member (region r) = false) data ->
  is_finite conversionFactor = true ->
  leb zero conversionFactor = true ->
  Forall (fun e => leb (A e) (fullMark e) = true)
         (regionData getDataTranslation data lang conversionFactor)
  /\ (regionData getDataTranslation data lang conversionFactor = []
      \/ Exists (fun e => A e = fullMark e)
                (regionData getDataTranslation data lang conversionFactor)).
Proof.
  intros Hfin Hkeys Hf Hpos.
  destruct conversionFactor as [| | f |]; try discriminate.
  cbn [leb zero of_Z num] in Hpos. apply Qc_leb_le in Hpos.
  destruct (grouped_by_from region f data [] (Forall_nil _) Hfin Hkeys) as [Ho _].
  fold (groupedByRegion data) in Ho.
  assert (Hentries : fin_valued (entries (groupedByRegion data))).
  { apply (Permutation_Forall (x := groupedByRegion data)); [| exact Ho].
    symmetry. apply entries_perm. }
  unfold regionData.
  remember (entries (groupedByRegion data)) as es eqn:Hes.
  pose proof (fin_valued_no_nan _ Hentries) as Hnonan.
  assert (Hval : forall e, In e es -> exists q, snd e = VNum (Fin q)).
  { apply Forall_forall. exact Hentries. }
  assert (Htop : es <> [] ->
                 exists e m, In e es /\ snd e = VNum (Fin m)
                             /\ Math_max (map (fun e' => to_number (snd e')) es) = Fin m
                             /\ forall e' q, In e' es -> snd e' = VNum (Fin q) -> (q <= m)%Qc).
  { intros Hne.
    assert (Hne' : map (fun e' => to_number (snd e')) es <> []).
    { intros Hnil. apply map_eq_nil in Hnil. contradiction. }
    destruct (Math_max_greatest _ Hnonan Hne') as [Hin Hall].
    apply in_map_iff in Hin. destruct Hin as [e [He Hin]].
    destruct (Hval e Hin) as [m Hm]. rewrite Hm in He. cbn [to_number] in He.
    exists e, m. split; [exact Hin |]. split; [exact Hm |]. split; [now symmetry |].
    intros e' q Hin' Hq. rewrite Forall_forall in Hall.
    pose proof (Hall _ (in_map (fun e' => to_number (snd e')) _ _ Hin')) as Hle.
    cbn beta in Hle. rewrite <- He, Hq in Hle. cbn [to_number leb] in Hle.
    now apply Qc_leb_le. }
  split.
  - apply Forall_map. apply Forall_forall. intros e He. cbn [A fullMark].
    destruct Htop as [e0 [m [_ [_ [Hmax Hle]]]]]; [intros ->; contradiction |].
    destruct (Hval e He) as [q Hq]. rewrite Hmax. unfold value_times. rewrite Hq.
    cbn [to_number mul leb]. apply Qc_leb_le.
    apply Qcmult_le_compat_r; [exact (Hle e q He Hq) | exact Hpos].
  - destruct es as [| e1 es'] eqn:Hes'; [now left |]. right.
    destruct Htop as [e0 [m [Hin [Hm [Hmax _]]]]]; [discriminate |].
    apply Exists_exists. eexists. split; [apply in_map; exact Hin |].
    cbn [A fullMark]. rewrite Hmax. unfold value_times. now rewrite Hm.
Qed.

End RegionRadar.

(* ===================================================================== *)
(** ** Table view: heatmap colours                                       *)
(* ===================================================================== *)

Section HeatmapColours.

Import DataGrid.

Lemma Qc_inv_nonneg (d : Qc) : (Q2Qc 0 < d)%Qc -> (Q2Qc 0 <= / d)%Qc.
Proof.
  intros Hd. apply Qclt_le_weak in Hd.
  unfold Qcle, Qcinv, Q2Qc in *. cbn [this] in *.
  rewrite Qred_correct in Hd. rewrite !Qred_correct.
  now apply Qinv_le_0_compat.
Qed.

Lemma ratio_bounds (n d : Qc) :
  (Q2Qc 0 <= n)%Qc -> (n <= d)%Qc -> (Q2Qc 0 < d)%Qc ->
  (Q2Qc 0 <= n / d)%Qc /\ (n / d <= Q2Qc 1)%Qc.
Proof.
  intros Hn Hnd Hd. pose proof (Qc_inv_nonneg d Hd) as Hinv. unfold Qcdiv. split.
  - rewrite <- (Qcmult_0_l (/ d)). now apply Qcmult_le_compat_r.
  - rewrite <- (Qcmult_inv_r d).
    + now apply Qcmult_le_compat_r.
    + intros ->. exact (Qclt_not_eq _ _ Hd eq_refl).
Qed.

Lemma opacity_between (b t p : Qc) :
  (b <= t)%Qc -> (Q2Qc 0 <= p)%Qc -> (p <= Q2Qc 1)%Qc ->
  (b <= b + p * (t + - b))%Qc /\ (b + p * (t + - b) <= t)%Qc.
Proof.
  intros Hbt Hp0 Hp1.
  pose proof (proj1 (Qcle_minus_iff b t) Hbt) as Hspan.
  split.
  - rewrite <- (Qcplus_0_r b) at 1. apply Qcplus_le_compat; [apply Qcle_refl |].
    rewrite <- (Qcmult_0_l (t + - b)). now apply Qcmult_le_compat_r.
  - replace t with (b + Q2Qc 1 * (t + - b))%Qc at 2 by ring.
    apply Qcplus_le_compat; [apply Qcle_refl |]. now apply Qcmult_le_compat_r.
Qed.

Lemma opacity_scale (theme : Theme) :
  exists b t, base_opacity theme = Fin b /\ max_opacity theme = Fin t /\ (b <= t)%Qc.
Proof.
  destruct theme; eexists; eexists; (split; [reflexivity |]; split; [reflexivity |]);
    now apply Qc_leb_le.
Qed.

Lemma positive_sign (d : Qc) : (Q2Qc 0 < d)%Qc -> sgn d = Gt.
Proof. intros H. unfold sgn. now apply Qcgt_alt. Qed.

Lemma shade_in_scale (theme : Theme) (n d : Qc) :
  (Q2Qc 0 <= n)%Qc -> (n <= d)%Qc -> (Q2Qc 0 < d)%Qc ->
  let shade := add (base_opacity theme)
                   (mul (div (Fin n) (Fin d))
                        (sub (max_opacity theme) (base_opacity theme))) in
  leb (base_opacity theme) shade = true /\ leb shade (max_opacity theme) = true.
Proof.
  intros Hn Hnd Hd. cbv zeta.
  destruct (opacity_scale theme) as [b [t [-> [-> Hbt]]]].
  cbn [div]. rewrite (positive_sign d Hd). cbn [sub neg add mul leb].
  destruct (ratio_bounds n d Hn Hnd Hd) as [H0 H1].
  destruct (opacity_between b t (n / d) Hbt H0 H1) as [Hlo Hhi].
  split; now apply Qc_leb_le.
Qed.

Lemma sales_between_extremes (sortedData : list SaleRecord) (row : SaleRecord) :
  In row sortedData ->
  Forall (fun r => is_finite (sales r) = true) sortedData ->
  exists q m M, sales row = Fin q /\ minSales sortedData = Fin m
                /\ maxSales sortedData = Fin M /\ (m <= q)%Qc /\ (q <= M)%Qc.
Proof.
  intros Hin Hfin.
  assert (Hnonan : Forall (fun r => is_nan (sales r) = false) sortedData).
  { apply Forall_impl with (2 := Hfin). intros r Hr. now destruct (sales r). }
  assert (Hall : Forall (fun x => is_finite x = true) (map sales sortedData ++ [zero])).
  { apply Forall_app. split; [now apply Forall_map | repeat constructor]. }
  destruct (Math_max_greatest _ (no_nan_with_zero sales _ Hnonan)
                              (with_zero_nonempty sales sortedData)) as [HMin HMall].
  destruct (Math_min_least _ (no_nan_with_zero sales _ Hnonan)
                           (with_zero_nonempty sales sortedData)) as [Hmin Hmall].
  fold (maxSales sortedData) in HMin, HMall. fold (minSales sortedData) in Hmin, Hmall.
  rewrite Forall_forall in Hall, HMall, Hmall.
  assert (Hrow : In (sales row) (map sales sortedData ++ [zero])).
  { apply in_or_app. left. now apply in_map. }
  pose proof (Hall _ Hrow) as Hq. pose proof (Hall _ HMin) as HM.
  pose proof (Hall _ Hmin) as Hm.
  pose proof (HMall _ Hrow) as HqM. pose proof (Hmall _ Hrow) as Hmq.
  destruct (sales row) as [| | q |]; try discriminate.
  destruct (maxSales sortedData) as [| | M |]; try discriminate.
  destruct (minSales sortedData) as [| | m |]; try discriminate.
  exists q, m, M. repeat split; now apply Qc_leb_le.
Qed.

(** The Sales cell of a visible row with finite sales is blue; when the
    visible sales are not all zero its opacity lies between the theme's
    base and maximum opacity; when they are all zero (minSales and
    maxSales coincide) the opacity is NaN. *)
Theorem salesCellColor_opacity
        (theme : Theme) (sortedData : list SaleRecord) (row : SaleRecord) :
  In row sortedData ->
  Forall (fun r => is_finite (sales r) = true) sortedData ->
  (red (salesCellColor theme sortedData row),
   green (salesCellColor theme sortedData row),
   blue (salesCellColor theme sortedData row)) = (59, 130, 246)%Z
  /\ (maxSales sortedData <> minSales sortedData ->
      leb (base_opacity theme) (alpha (salesCellColor theme sortedData row)) = true
      /\ leb (alpha (salesCellColor theme sortedData row)) (max_opacity theme) = true)
  /\ (maxSales sortedData = minSales sortedData ->
      alpha (salesCellColor theme sortedData row) = NaN).
Proof.
  intros Hin Hfin.
  destruct (sales_between_extremes sortedData row Hin Hfin)
    as [q [m [M [Hq [Hm [HM [Hmq HqM]]]]]]].
  unfold salesCellColor, getBackgroundColor. cbv zeta. cbn [red green blue alpha].
  rewrite Hq, Hm, HM. split; [reflexivity |]. split.
  - intros Hne. cbn [sub neg add].
    apply (shade_in_scale theme (q + - m) (M + - m)).
    + exact (proj1 (Qcle_minus_iff m q) Hmq).
    + apply Qcplus_le_compat; [exact HqM | apply Qcle_refl].
    + apply (proj1 (Qclt_minus_iff m M)). destruct (Qcle_lt_or_eq _ _ (Qcle_trans _ _ _ Hmq HqM)) as [H | H];
        [exact H | congruence].
  - intros Heq. injection Heq as ->.
    assert (q = m) by (now apply Qcle_antisym). subst q.
    destruct theme; cbn [sub neg add div]; rewrite Qcplus_opp_r; reflexivity.
Qed.

Lemma profit_below_max (sortedData : list SaleRecord) (row : SaleRecord) :
  In row sortedData ->
  Forall (fun r => is_finite (profit r) = true) sortedData ->
  exists q M, profit row = Fin q /\ maxProfit sortedData = Fin M
              /\ (q <= M)%Qc /\ (Q2Qc 0 <= M)%Qc.
Proof.
  intros Hin Hfin.
  assert (Hnonan : Forall (fun r => is_nan (profit r) = false) sortedData).
  { apply Forall_impl with (2 := Hfin). intros r Hr. now destruct (profit r). }
  assert (Hall : Forall (fun x => is_finite x = true) (map profit sortedData ++ [zero])).
  { apply Forall_app. split; [now apply Forall_map | repeat constructor]. }
  destruct (Math_max_greatest _ (no_nan_with_zero profit _ Hnonan)
                              (with_zero_nonempty profit sortedData)) as [HMin HMall].
  fold (maxProfit sortedData) in HMin, HMall.
  rewrite Forall_forall in Hall, HMall.
  assert (Hrow : In (profit row) (map profit sortedData ++ [zero])).
  { apply in_or_app. left. now apply in_map. }
  assert (Hzero : In zero (map profit sortedData ++ [zero])).
  { apply in_or_app. right. now left. }
  pose proof (Hall _ Hrow) as Hq. pose proof (Hall _ HMin) as HM.
  pose proof (HMall _ Hrow) as HqM. pose proof (HMall _ Hzero) as H0M.
  destruct (profit row) as [| | q |]; try discriminate.
  destruct (maxProfit sortedData) as [| | M |]; try discriminate.
  exists q, M. repeat split; now apply Qc_leb_le.
Qed.

(** The Profit cell of a visible row with finite profits: a loss is red
    at the base opacity plus 0.1; otherwise the cell is green, with an
    opacity between the theme's base and maximum when some visible profit
    is positive, and NaN when none is (maxProfit is then 0). *)
Theorem profitCellColor_opacity
        (theme : Theme) (sortedData : list SaleRecord) (row : SaleRecord) :
  In row sortedData ->
  Forall (fun r => is_finite (profit r) = true) sortedData ->
  (ltb (profit row) zero = true ->
   profitCellColor theme sortedData row
   = mkRgba 239 68 68 (add (base_opacity theme) (num 0.1)))
  /\ (ltb (profit row) zero = false ->
      (red (profitCellColor theme sortedData row),
       green (profitCellColor theme sortedData row),
       blue (profitCellColor theme sortedData row)) = (34, 197, 94)%Z
      /\ (maxProfit sortedData <> zero ->
          leb (base_opacity theme) (alpha (profitCellColor theme sortedData row)) = true
          /\ leb (alpha (profitCellColor theme sortedData row)) (max_opacity theme) = true)
      /\ (maxProfit sortedData = zero ->
          alpha (profitCellColor theme sortedData row) = NaN)).
Proof.
  intros Hin Hfin.
  destruct (profit_below_max sortedData row Hin Hfin) as [q [M [Hq [HM [HqM H0M]]]]].
  unfold profitCellColor, getBackgroundColor. cbv zeta. rewrite Hq, HM. split.
  - intros Hneg. rewrite Hneg. now destruct theme.
  - intros Hpos. rewrite Hpos. cbn [red green blue alpha].
    split; [reflexivity |].
    cbn [ltb zero of_Z num] in Hpos. apply Qc_ltb_ge in Hpos. split.
    + intros Hne. apply (shade_in_scale theme q M); [exact Hpos | exact HqM |].
      destruct (Qcle_lt_or_eq _ _ H0M) as [H | H]; [exact H |].
      exfalso. apply Hne. unfold zero, of_Z, num. now rewrite <- H.
    + intros Heq. unfold zero, of_Z, num in Heq. injection Heq as ->.
      assert (q = Q2Qc (inject_Z 0)) by (now apply Qcle_antisym). subst q.
      destruct theme; reflexivity.
Qed.

End HeatmapColours.

(* ===================================================================== *)
(** ** Concrete instances                                                *)
(* ===================================================================== *)

(** Refutes an equation between two closed numbers by evaluation. *)
Ltac number_neq :=
  let H := fresh in
  intros H;
  match type of H with
  | ?a = ?b => apply (f_equal (fun n => JS.eqb n b)) in H; vm_compute in H; discriminate
  end.

Lemma sortedData_rearranges_stably_witness :
  filter (fun r => sort_value_eqb (DataGrid.sortValue sample_host pt DataGrid.Ksales r)
                                  (DataGrid.SNum (of_Z 100)))
         (DataGrid.sortedData sample_host pt
            (Some {| DataGrid.key := DataGrid.Ksales; DataGrid.direction := DataGrid.asc |})
            [sample_north; sample_south; sold_as "Food"])
  = filter (fun r => sort_value_eqb (DataGrid.sortValue sample_host pt DataGrid.Ksales r)
                                    (DataGrid.SNum (of_Z 100)))
           [sample_north; sample_south; sold_as "Food"].
Proof.
  apply (proj2 (proj2 (sortedData_rearranges_stably
                         sample_host pt
                         (Some {| DataGrid.key := DataGrid.Ksales;
                                  DataGrid.direction := DataGrid.asc |})
                         [sample_north; sample_south; sold_as "Food"]))
               {| DataGrid.key := DataGrid.Ksales; DataGrid.direction := DataGrid.asc |}
               (DataGrid.SNum (of_Z 100)) eq_refl).
  repeat constructor.
Defined.

Lemma sortedData_in_order_witness :
  StronglySorted
    (fun a b => in_order DataGrid.desc
                         (DataGrid.sortValue sample_host pt DataGrid.Ksales a)
                         (DataGrid.sortValue sample_host pt DataGrid.Ksales b))
    (DataGrid.sortedData sample_host pt
       (Some {| DataGrid.key := DataGrid.Ksales; DataGrid.direction := DataGrid.desc |})
       [sample_south; sample_north]).
Proof.
  apply (sortedData_in_order sample_host pt
           {| DataGrid.key := DataGrid.Ksales; DataGrid.direction := DataGrid.desc |}
           [sample_south; sample_north]).
  repeat constructor.
Defined.

Lemma sortedData_toggle_reverses_witness :
  DataGrid.sortedData sample_host pt
    (Some {| DataGrid.key := DataGrid.Kproduct; DataGrid.direction := DataGrid.desc |})
    [sample_south; sample_north]
  = rev (DataGrid.sortedData sample_host pt
           (Some {| DataGrid.key := DataGrid.Kproduct; DataGrid.direction := DataGrid.asc |})
           [sample_south; sample_north]).
Proof.
  apply (sortedData_toggle_reverses sample_host pt DataGrid.Kproduct
                                    [sample_south; sample_north]).
  - repeat constructor.
  - repeat constructor; cbn; intuition discriminate.
Defined.

Lemma regionData_within_full_mark_witness :
  Forall (fun e => leb (ChartsSection.A e) (ChartsSection.fullMark e) = true)
         (ChartsSection.regionData (DataGrid.getDataTranslation sample_host)
                                   [sample_north; sample_south; sample_north] pt (num 2)).
Proof.
  apply (regionData_within_full_mark (DataGrid.getDataTranslation sample_host)
                                     [sample_north; sample_south; sample_north] pt (num 2));
    [repeat constructor | repeat constructor | reflexivity | reflexivity].
Defined.

Lemma salesCellColor_opacity_witness :
  leb (base_opacity light)
      (DataGrid.alpha (DataGrid.salesCellColor light [sample_north; sample_south]
                                               sample_south)) = true
  /\ leb (DataGrid.alpha (DataGrid.salesCellColor light [sample_north; sample_south]
                                                  sample_south))
         (max_opacity light) = true.
Proof.
  apply (salesCellColor_opacity light [sample_north; sample_south] sample_south);
    [right; now left | repeat constructor | number_neq].
Defined.

Lemma profitCellColor_opacity_witness :
  leb (base_opacity dark)
      (DataGrid.alpha (DataGrid.profitCellColor dark [sample_north; sample_south]
                                                sample_south)) = true
  /\ leb (DataGrid.alpha (DataGrid.profitCellColor dark [sample_north; sample_south]
                                                   sample_south))
         (max_opacity dark) = true.
Proof.
  apply (profitCellColor_opacity dark [sample_north; sample_south] sample_south);
    [right; now left | repeat constructor | reflexivity | number_neq].
Defined.

(* ===================================================================== *)
(** ** ISO dates: printing and reading back                              *)
(* ===================================================================== *)

Section IsoDates.

Import Date.

Lemma era_days_checked :
  forallb (fun q => forallb (fun r => (146097 <=? Z.of_nat q * 400 + Z.of_nat r)%Z
                                      || era_day_ok (Z.of_nat q * 400 + Z.of_nat r))
                            (seq 0 400))
          (seq 0 366) = true.
Proof. vm_compute. reflexivity. Qed.

Lemma era_day_proper (doe : Z) : (0 <= doe < 146097)%Z -> era_day_ok doe = true.
Proof.
  intros H. pose proof era_days_checked as Hall.
  rewrite forallb_forall in Hall.
  specialize (Hall (Z.to_nat (doe / 400))).
  rewrite forallb_forall in Hall.
  specialize (fun Hq => Hall Hq (Z.to_nat (doe mod 400))).
  rewrite !Z2Nat.id in Hall by (Z.div_mod_to_equations; lia).
  replace (doe / 400 * 400 + doe mod 400)%Z with doe in Hall
    by (Z.div_mod_to_equations; lia).
  assert (Hin : (146097 <=? doe)%Z || era_day_ok doe = true)
    by (apply Hall; apply in_seq; Z.div_mod_to_equations; lia).
  apply orb_true_iff in Hin. destruct Hin as [Hin | Hin]; [| exact Hin].
  apply Z.leb_le in Hin. lia.
Qed.

Lemma is_leap_period (y k : Z) : is_leap (y + k * 400) = is_leap y.
Proof.
  unfold is_leap.
  replace (y + k * 400)%Z with (y + (k * 100) * 4)%Z at 1 by lia.
  replace (y + k * 400)%Z with (y + (k * 4) * 100)%Z at 1 by lia.
  now rewrite !Z_mod_plus_full.
Qed.

Lemma days_in_month_period (y k m : Z) :
  days_in_month (y + k * 400) m = days_in_month y m.
Proof. unfold days_in_month. now rewrite is_leap_period. Qed.

Lemma days_from_civil_period (y k m d : Z) :
  days_from_civil (y + k * 400) m d = (days_from_civil y m d + k * 146097)%Z.
Proof.
  unfold days_from_civil. cbv zeta.
  assert (Hshift : forall y',
             let era := ((y' + k * 400) / 400)%Z in
             let yoe := (y' + k * 400 - era * 400)%Z in
             let era0 := (y' / 400)%Z in
             let yoe0 := (y' - era0 * 400)%Z in
             era = (era0 + k)%Z /\ yoe = yoe0).
  { intros y'. cbv zeta. rewrite Z.div_add by lia. split; lia. }
  destruct (m <=? 2)%Z.
  - replace (y + k * 400 - 1)%Z with (y - 1 + k * 400)%Z by lia.
    destruct (Hshift (y - 1)%Z) as [-> ->]. lia.
  - destruct (Hshift y) as [-> ->]. lia.
Qed.

Lemma civil_from_days_era (day : Z) :
  civil_from_days day
  = let era := ((day + 719468) / 146097)%Z in
    let '(y, m, d) := era_fields (day + 719468 - era * 146097) in
    ((y + era * 400)%Z, m, d).
Proof.
  unfold civil_from_days, era_fields. cbv zeta.
  repeat match goal with
         | |- context [if ?c then _ else _] => destruct c
         end; f_equal; f_equal; lia.
Qed.

(** [civil_from_days] gives a proper calendar date, the one of its day. *)
Lemma civil_from_days_proper (day y m d : Z) :
  civil_from_days day = (y, m, d) ->
  (1 <= m <= 12)%Z /\ (1 <= d <= days_in_month y m)%Z
  /\ days_from_civil y m d = day
  /\ ((day + 719468) / 146097 * 400 <= y <= (day + 719468) / 146097 * 400 + 400)%Z.
Proof.
  rewrite civil_from_days_era. cbv zeta.
  set (era := ((day + 719468) / 146097)%Z).
  set (doe := (day + 719468 - era * 146097)%Z).
  assert (Hdoe : (0 <= doe < 146097)%Z)
    by (unfold doe, era; Z.div_mod_to_equations; lia).
  pose proof (era_day_proper doe Hdoe) as Hok. unfold era_day_ok in Hok.
  destruct (era_fields doe) as [[y0 m0] d0].
  intros Heq. injection Heq as <- <- <-.
  rewrite !andb_true_iff, !Z.leb_le, Z.eqb_eq in Hok.
  rewrite days_in_month_period, days_from_civil_period.
  unfold doe in Hok. lia.
Qed.

End IsoDates.

Section IsoText.

Import Date.

Lemma digit_of_digit_char (d : Z) :
  (0 <= d <= 9)%Z -> digit_of (digit_char d) = Some (Z.to_N d).
Proof.
  intros H.
  assert (Hd : (d = 0 \/ d = 1 \/ d = 2 \/ d = 3 \/ d = 4 \/ d = 5 \/ d = 6
                \/ d = 7 \/ d = 8 \/ d = 9)%Z) by lia.
  repeat destruct Hd as [-> | Hd]; try reflexivity. now subst.
Qed.

Lemma digits2_pad2 (n : Z) :
  (0 <= n <= 99)%Z ->
  digits2 (digit_char (n / 10)) (digit_char (n mod 10)) = Some n.
Proof.
  intros H. unfold digits2.
  rewrite !digit_of_digit_char by (Z.div_mod_to_equations; lia).
  f_equal. rewrite N2Z.inj_add, N2Z.inj_mul, !Z2N.id by (Z.div_mod_to_equations; lia).
  Z.div_mod_to_equations; lia.
Qed.

Lemma civil_day_four_digits (y m d : Z) :
  (0 <= y <= 9999)%Z -> (1 <= m <= 12)%Z -> (1 <= d <= days_in_month y m)%Z ->
  civil_day (pad4 y ++ "-" ++ pad2 m ++ "-" ++ pad2 d)%string = Some (days_from_civil y m d).
Proof.
  intros Hy Hm Hd.
  assert (Hd31 : (d <= 31)%Z).
  { unfold days_in_month in Hd.
    repeat match goal with
           | H : context [if ?c then _ else _] |- _ => destruct c
           end; lia. }
  unfold civil_day, pad4, pad2. cbn [append list_ascii_of_string].
  rewrite !digits2_pad2 by (Z.div_mod_to_equations; lia).
  replace (100 * (y / 100) + y mod 100)%Z with y by (Z.div_mod_to_equations; lia).
  replace ((1 <=? m) && (m <=? 12) && (1 <=? d) && (d <=? days_in_month y m))%Z
    with true; [reflexivity |].
  symmetry. rewrite !andb_true_iff, !Z.leb_le. lia.
Qed.


Lemma civil_day_fifth_digit (c1 c2 c3 c4 : ascii) (x : Z) (rest : string) :
  (0 <= x <= 9)%Z ->
  civil_day (String c1 (String c2 (String c3 (String c4 (String (digit_char x) rest)))))
  = None.
Proof.
  intros H.
  assert (Hx : (x = 0 \/ x = 1 \/ x = 2 \/ x = 3 \/ x = 4 \/ x = 5 \/ x = 6
                \/ x = 7 \/ x = 8 \/ x = 9)%Z) by lia.
  unfold civil_day. cbn [list_ascii_of_string].
  repeat destruct Hx as [-> | Hx]; try reflexivity. now subst.
Qed.

Lemma civil_day_any_expanded (n m d : Z) (negative : bool) :
  (0 < n <= 999999)%Z -> (1 <= m <= 12)%Z ->
  (1 <= d <= days_in_month (if negative then - n else n) m)%Z ->
  civil_day_any ((if negative then "-" else "+")
                 ++ pad6 n ++ "-" ++ pad2 m ++ "-" ++ pad2 d)%string
  = Some (days_from_civil (if negative then - n else n) m d).
Proof.
  intros Hn Hm Hd.
  assert (Hd31 : (d <= 31)%Z).
  { unfold days_in_month in Hd.
    repeat match goal with
           | H : context [if ?c then _ else _] |- _ => destruct c
           end; lia. }
  unfold civil_day_any.
  assert (Hnone : civil_day ((if negative then "-" else "+")
                             ++ pad6 n ++ "-" ++ pad2 m ++ "-" ++ pad2 d)%string = None).
  { destruct negative; unfold pad6, pad4, pad2; cbn [append];
      apply civil_day_fifth_digit; Z.div_mod_to_equations; lia. }
  rewrite Hnone.
  destruct negative; unfold pad6, pad4, pad2; cbn [append list_ascii_of_string];
    rewrite !digits2_pad2 by (Z.div_mod_to_equations; lia);
    replace (10000 * (n / 10000) + 100 * (n mod 10000 / 100) + n mod 10000 mod 100)%Z
      with n by (Z.div_mod_to_equations; lia);
    cbn [Ascii.eqb Bool.eqb andb].
  - replace (n =? 0)%Z with false by (symmetry; apply Z.eqb_neq; lia). cbn [negb].
    replace ((1 <=? m) && (m <=? 12) && (1 <=? d) && (d <=? days_in_month (- n) m))%Z
      with true; [reflexivity |].
    symmetry. rewrite !andb_true_iff, !Z.leb_le. lia.
  - replace ((1 <=? m) && (m <=? 12) && (1 <=? d) && (d <=? days_in_month n m))%Z
      with true; [reflexivity |].
    symmetry. rewrite !andb_true_iff, !Z.leb_le. lia.
Qed.

Lemma civil_day_any_text (y m d : Z) :
  (-999999 <= y <= 999999)%Z -> (1 <= m <= 12)%Z -> (1 <= d <= days_in_month y m)%Z ->
  civil_day_any (year_text y ++ "-" ++ pad2 m ++ "-" ++ pad2 d)%string
  = Some (days_from_civil y m d).
Proof.
  intros Hy Hm Hd. unfold year_text.
  destruct ((0 <=? y) && (y <=? 9999))%Z eqn:E.
  - apply andb_true_iff in E. rewrite !Z.leb_le in E.
    unfold civil_day_any. now rewrite civil_day_four_digits.
  - destruct (y <? 0)%Z eqn:Eneg.
    + apply Z.ltb_lt in Eneg.
      pose proof (civil_day_any_expanded (- y) m d true) as H.
      cbv iota in H. rewrite Z.opp_involutive in H.
      cbn [append] in H |- *. apply H; try exact Hd; lia.
    + apply Z.ltb_ge in Eneg. apply andb_false_iff in E.
      rewrite Z.leb_gt, Z.leb_gt in E.
      pose proof (civil_day_any_expanded y m d false) as H. cbv iota in H.
      cbn [append] in H |- *. apply H; try exact Hd; lia.
Qed.

(** Within the range of valid dates, the day printed by [toISOString] is
    read back as midnight UTC of that day. *)
Lemma parse_any_isoDate (t : Z) :
  (-8640000000000000 <= t <= 8640000000000000)%Z ->
  parse_any (isoDate t) = Some (t / msPerDay * msPerDay)%Z.
Proof.
  intros Ht. unfold parse_any, isoDate.
  destruct (civil_from_days (t / msPerDay)) as [[y m] d] eqn:E.
  destruct (civil_from_days_proper _ _ _ _ E) as [Hm [Hd [Hback Hy]]].
  rewrite civil_day_any_text; [now rewrite Hback | | exact Hm | exact Hd].
  unfold msPerDay in *. Z.div_mod_to_equations. lia.
Qed.

Lemma digit_or_sign_not_inherited (c : ascii) (rest : string) :
  (N_of_ascii c < 64)%N -> proto_member (String c rest) = false.
Proof.
  intros Hc. unfold proto_member, includes, proto_members. cbn [existsb String.eqb].
  repeat match goal with
         | |- context [Ascii.eqb c ?k] =>
             replace (Ascii.eqb c k) with false
               by (symmetry; apply Ascii.eqb_neq; intros ->; vm_compute in Hc; discriminate)
         end.
  reflexivity.
Qed.

Lemma isoDate_not_inherited (t : Z) :
  (-8640000000000000 <= t <= 8640000000000000)%Z ->
  proto_member (isoDate t) = false.
Proof.
  intros Ht. unfold isoDate.
  destruct (civil_from_days (t / msPerDay)) as [[y m] d] eqn:E.
  destruct (civil_from_days_proper _ _ _ _ E) as [_ [_ [_ Hy]]].
  unfold year_text. destruct ((0 <=? y) && (y <=? 9999))%Z eqn:Ey.
  - apply andb_true_iff in Ey. rewrite !Z.leb_le in Ey.
    unfold pad4, pad2. cbn [append]. apply digit_or_sign_not_inherited.
    unfold digit_char. rewrite N_ascii_embedding; Z.div_mod_to_equations; lia.
  - destruct (y <? 0)%Z; cbn [append]; now apply digit_or_sign_not_inherited.
Qed.

End IsoText.

(* ===================================================================== *)
(** ** Objects used as maps: keys and grouped sums                       *)
(* ===================================================================== *)

Section ObjectKeys.

Lemma own_None (o : object) (k : string) :
  own o k = None <-> ~ In k (map fst o).
Proof.
  induction o as [| [k' v] o IH]; cbn [own map fst In]; [tauto |].
  destruct (String.eqb_spec k k') as [-> | Hne].
  - split; [discriminate | intros H; exfalso; apply H; now left].
  - rewrite IH. split; [intros H [E | Hin]; [now subst | auto] | tauto].
Qed.

Lemma own_Some_key (o : object) (k : string) (v : JS.value) :
  own o k = Some v -> In k (map fst o).
Proof.
  induction o as [| [k' v'] o IH]; cbn [own map fst In]; [discriminate |].
  destruct (String.eqb_spec k k') as [-> | Hne]; [now left | right; auto].
Qed.

Lemma own_In (o : object) (k : string) (v : JS.value) :
  NoDup (map fst o) -> In (k, v) o -> own o k = Some v.
Proof.
  induction o as [| [k' v'] o IH]; cbn [own map fst In]; [contradiction |].
  intros Hnd Hin. inversion Hnd as [| ? ? Hnot Hrest]; subst.
  destruct Hin as [E | Hin].
  - injection E as -> ->. now rewrite String.eqb_refl.
  - destruct (String.eqb_spec k k') as [-> | Hne]; [| now apply IH].
    exfalso. apply Hnot. exact (in_map fst _ _ Hin).
Qed.

Lemma replace_own_keys (o : object) (k : string) (v : JS.value) :
  map fst (replace_own o k v) = map fst o.
Proof.
  induction o as [| [k' v'] o IH]; cbn [replace_own map]; [reflexivity |].
  destruct (String.eqb k k'); cbn [map fst]; [reflexivity | now rewrite IH].
Qed.

Lemma own_replace_own (o : object) (k k' : string) (v : JS.value) :
  own (replace_own o k v) k'
  = if String.eqb k' k
    then match own o k with Some _ => Some v | None => None end
    else own o k'.
Proof.
  induction o as [| [k0 v0] o IH]; cbn [replace_own own].
  - now destruct (String.eqb k' k).
  - destruct (String.eqb_spec k k0) as [-> | Hne]; cbn [own].
    + destruct (String.eqb_spec k' k0) as [-> | Hne']; reflexivity.
    + destruct (String.eqb_spec k' k0) as [-> | Hne'].
      * destruct (String.eqb_spec k0 k) as [-> | _]; [contradiction | reflexivity].
      * exact IH.
Qed.

Lemma own_app_new (o : object) (k k' : string) (v : JS.value) :
  own (o ++ [(k, v)]) k'
  = match own o k' with
    | Some x => Some x
    | None => if String.eqb k' k then Some v else None
    end.
Proof.
  induction o as [| [k0 v0] o IH]; cbn [app own]; [reflexivity |].
  destruct (String.eqb k' k0); [reflexivity | exact IH].
Qed.

End ObjectKeys.

Section GroupedSums.

Variable field : SaleRecord -> string.

Lemma sales_where_none (p : SaleRecord -> bool) (data : list SaleRecord) :
  (forall r, In r data -> p r = false) -> sales_where p data = zero.
Proof.
  intros H. unfold sales_where.
  induction data as [| r data IH]; cbn [filter]; [reflexivity |].
  rewrite (H r (or_introl eq_refl)). apply IH. intros x Hx. apply H. now right.
Qed.

Lemma sales_where_snoc (p : SaleRecord -> bool) (data : list SaleRecord) (r : SaleRecord) :
  sales_where p (data ++ [r])
  = if p r then add (sales_where p data) (sales r) else sales_where p data.
Proof.
  unfold sales_where. rewrite filter_app, map_app, sum_of_app. cbn [filter].
  destruct (p r); cbn [map sum_of fold_right].
  - now rewrite add_zero_r.
  - apply add_zero_r.
Qed.

(** One own property for each value of the field, holding the sum of the
    sales of the records with that value. *)
Lemma grouped_by_sums (data : list SaleRecord) :
  Forall (fun r => is_finite (sales r) = true) data ->
  Forall (fun r => proto_member (field r) = false) data ->
  let o := reduce (fun acc curr =>
                     set acc (field curr)
                         (value_plus (value_or_zero (get acc (field curr))) (sales curr)))
                  [] data in
  NoDup (map fst o)
  /\ (forall k, In k (map fst o) <-> In k (map field data))
  /\ (forall k v, own o k = Some v ->
                  v = VNum (sales_where (fun r => String.eqb (field r) k) data)).
Proof.
  induction data as [| r data IH] using rev_ind; intros Hfin Hkeys; cbv zeta in *.
  - cbn. split; [constructor |]. split; [tauto | discriminate].
  - apply Forall_app in Hfin, Hkeys.
    destruct Hfin as [Hfin Hr], Hkeys as [Hkeys Hk].
    inversion Hr as [| ? ? Hs _]; subst. inversion Hk as [| ? ? Hp _]; subst.
    destruct (IH Hfin Hkeys) as [Hnd [Hin Hsum]].
    assert (Hfv : forall k, exists q,
                 sales_where (fun r => String.eqb (field r) k) data = Fin q).
    { intros k. apply sum_of_finite. apply Forall_map.
      apply Forall_forall. intros x Hx. apply filter_In in Hx.
      rewrite Forall_forall in Hfin. now apply Hfin. }
    unfold reduce in *. rewrite fold_left_app. cbn [fold_left].
    match goal with
    | |- context [fold_left ?f data []] => set (o := fold_left f data []) in *
    end.
    unfold set, get. rewrite (not_proto_key _ Hp), Hp.
    destruct (own o (field r)) as [v |] eqn:Hown.
    + pose proof (Hsum _ _ Hown) as ->.
      destruct (Hfv (field r)) as [q Hq]. rewrite Hq.
      cbn [value_or_zero value_plus]. rewrite or_else_fin.
      rewrite replace_own_keys. split; [exact Hnd |]. split.
      * intros k. rewrite map_app, in_app_iff, Hin. cbn [map In].
        split; [tauto |]. intros [H | [<- | []]]; [exact H |].
        apply Hin. exact (own_Some_key _ _ _ Hown).
      * intros k v. rewrite own_replace_own, Hown, sales_where_snoc.
        rewrite (String.eqb_sym k (field r)).
        destruct (String.eqb_spec (field r) k) as [<- | Hne].
        -- intros E. injection E as <-. now rewrite Hq.
        -- apply Hsum.
    + cbn [value_or_zero value_plus]. rewrite add_zero_l.
      pose proof (proj1 (own_None _ _) Hown) as Hnew.
      split; [| split].
      * rewrite map_app. cbn [map fst].
        apply (Permutation_NoDup (Permutation_cons_append _ _)).
        constructor; assumption.
      * intros k. rewrite !map_app, !in_app_iff, Hin. reflexivity.
      * intros k v. rewrite own_app_new, sales_where_snoc.
        rewrite (String.eqb_sym k (field r)).
        destruct (own o k) as [x |] eqn:Hx.
        -- intros E. injection E as <-.
           destruct (String.eqb_spec (field r) k) as [<- | Hne];
             [congruence | now apply Hsum].
        -- destruct (String.eqb_spec (field r) k) as [<- | Hne]; [| discriminate].
           intros E. injection E as <-.
           rewrite sales_where_none; [now rewrite add_zero_l |].
           intros x Hxin. apply String.eqb_neq. intros E.
           apply Hnew. apply Hin. rewrite <- E. now apply in_map.
Qed.

End GroupedSums.

(* ===================================================================== *)
(** ** Sales over time                                                   *)
(* ===================================================================== *)

Section SalesOverTime.

Import App ChartsSection Date.

Lemma isoDate_same_day (t t' : Z) :
  (t / msPerDay = t' / msPerDay)%Z -> isoDate t = isoDate t'.
Proof. unfold isoDate. now intros ->. Qed.

Lemma strictly_sorted_keys {A B : Type} (R : A -> A -> Prop) (S : B -> B -> Prop)
      (f : A -> B) (l : list A) :
  StronglySorted R l -> NoDup (map f l) ->
  (forall a b, In a l -> In b l -> R a b -> f a <> f b -> S (f a) (f b)) ->
  StronglySorted S (map f l).
Proof.
  induction 1 as [| a l Hl IH Ha]; cbn [map]; intros Hnd Hstrict; [constructor |].
  inversion Hnd as [| ? ? Hnot Hrest]; subst. constructor.
  - apply IH; [exact Hrest |]. intros x y Hx Hy. apply Hstrict; now right.
  - apply Forall_map. rewrite Forall_forall in Ha |- *. intros b Hb.
    apply Hstrict; [now left | now right | now apply Ha |].
    intros E. apply Hnot. rewrite E. now apply in_map.
Qed.


End SalesOverTime.


(* ===================================================================== *)
(** ** One slice per category, one axis per region                       *)
(* ===================================================================== *)

Section SlicesAndAxes.

Import App ChartsSection.

Variable getDataTranslation : string -> Language -> string.
Variable lang : Language.



End SlicesAndAxes.



(* ===================================================================== *)
(** ** Sales by category: the parts and the whole                        *)
(* ===================================================================== *)

Section CategoryChart.

Import App ChartsSection.

Lemma sum_not_negative (f : SaleRecord -> number) (data : list SaleRecord) :
  Forall (fun r => is_finite (f r) = true /\ leb zero (f r) = true) data ->
  exists a, sum_of (map f data) = Fin a /\ (Q2Qc (inject_Z 0) <= a)%Qc.
Proof.
  induction 1 as [| r data [Hfin Hpos] _ [a [Ha Ha0]]].
  - exists (Q2Qc (inject_Z 0)). split; [reflexivity | apply Qcle_refl].
  - destruct (f r) as [| | q |] eqn:Hq; try discriminate.
    cbn [leb zero of_Z num] in Hpos. apply Qc_leb_le in Hpos.
    cbn [map sum_of fold_right]. fold (sum_of (map f data)). rewrite Hq, Ha.
    exists (q + a)%Qc. split; [reflexivity |].
    rewrite <- (Qcplus_0_l (Q2Qc (inject_Z 0))). now apply Qcplus_le_compat.
Qed.

Lemma factor_below_the_larger (f : Qc) :
  exists m, Math_max [one; Fin f] = Fin m /\ (f <= m)%Qc.
Proof.
  destruct (Math_max_greatest [one; Fin f] eq_refl) as [Hin Hall]; [discriminate |].
  inversion Hall as [| ? ? _ Hrest]; subst. inversion Hrest as [| ? ? Hf _]; subst.
  destruct Hin as [Hm | [Hm | []]].
  - rewrite <- Hm in Hf |- *. eexists. split; [reflexivity |]. now apply Qc_leb_le.
  - rewrite <- Hm. exists f. split; [reflexivity | apply Qcle_refl].
Qed.


End CategoryChart.



